(** * pdf-largest-number: extraction and ranking of the numbers of a document

    A shallow embedding of [main.py].  The program reads the text of every
    page of a PDF, finds numeric tokens with two regular expressions, scales
    them by a suffix letter (K/M/B/T) or by a keyword of the page
    ("in millions"), and returns the largest values.

    What the embedding covers, and how:
    - [str] values are Rocq strings; the characters are the ASCII range, on
      which [\d] is [0-9], [\w] is [A-Za-z0-9_] and [str.lower] maps [A-Z] to
      [a-z]; a character of code 128 or more is outside the embedding, which
      takes it for neither a digit, a letter nor a word character;
    - [float] is IEEE 754 binary64, as [spec_float] with [prec = 53] and
      [emax = 1024]; [float(s)] rounds the decimal literal to the nearest
      float, ties to even;
    - [re] is a backtracking matcher: the alternatives of a pattern are tried
      in order, quantifiers are greedy, the first success is the match;
    - a raised exception ([ValueError] of [float], [replace] on a group
      that did not take part in the match) is [None] in an error monad;
    - the document is the list of what [page.extract_text()] returns for each
      page: [None] or a string. *)

From Stdlib Require Import ZArith List Bool Lia Ascii String.
From Stdlib Require Import Permutation Sorted.
From Stdlib Require Import Floats.SpecFloat.
Import ListNotations.

Open Scope Z_scope.

(** ** The error monad of the embedding *)

Definition bind {A B : Type} (m : option A) (k : A -> option B) : option B :=
  match m with
  | Some a => k a
  | None => None
  end.

Notation "x <- m ;; k" := (bind m (fun x => k))
  (at level 61, m at next level, right associativity).

Fixpoint mapM {A B : Type} (f : A -> option B) (l : list A) : option (list B) :=
  match l with
  | [] => Some []
  | a :: l' => b <- f a ;; bs <- mapM f l' ;; Some (b :: bs)
  end.

(** ** Python floats *)

Module PyFloat.

Definition prec : Z := 53.
Definition emax : Z := 1024.

Definition float : Type := spec_float.

Definition zero : float := S754_zero false.

(** The float nearest to [n / d], for [0 <= n] and [0 < d]. *)
Definition of_ratio (n d : Z) : float :=
  match n with
  | Z0 => zero
  | _ =>
    let '(q, e, l) := SFdiv_core_binary prec emax n 0 d 0 in
    binary_round_aux prec emax false q e l
  end.

(** [float(n)] for a Python [int]. *)
Definition of_int (n : Z) : float := binary_normalize prec emax n 0 false.

Definition mul (x y : float) : float := SFmul prec emax x y.

(** [x * n] for a float [x] and an int [n]: the int is converted first. *)
Definition mul_int (x : float) (n : Z) : float := mul x (of_int n).

Definition ltb (x y : float) : bool := SFltb x y.
Definition leb (x y : float) : bool := SFleb x y.
Definition eqb (x y : float) : bool := SFeqb x y.

(** The floats this program computes: [+0.0], the positive finite floats
    and [+inf]. *)
Definition nonneg (x : float) : Prop :=
  match x with
  | S754_zero false | S754_infinity false | S754_finite false _ _ => True
  | _ => False
  end.

(** The float of a multiplier of the program: finite and positive. *)
Definition finite_pos (x : float) : Prop :=
  match x with
  | S754_finite false _ _ => True
  | _ => False
  end.

End PyFloat.

(** ** Python strings *)

Module PyStr.

Definition chars (s : string) : list ascii := list_ascii_of_string s.

Definition code (a : ascii) : nat := nat_of_ascii a.

Definition is_digit (a : ascii) : bool :=
  ((48 <=? code a) && (code a <=? 57))%nat.

Definition is_upper (a : ascii) : bool :=
  ((65 <=? code a) && (code a <=? 90))%nat.

Definition is_lower (a : ascii) : bool :=
  ((97 <=? code a) && (code a <=? 122))%nat.

(** [\w] *)
Definition is_word (a : ascii) : bool :=
  is_digit a || is_upper a || is_lower a || Ascii.eqb a "_".

Definition lower_char (a : ascii) : ascii :=
  if is_upper a then ascii_of_nat (code a + 32) else a.

(** [s.lower()] *)
Definition lower (s : list ascii) : list ascii := map lower_char s.

(** [s.replace(',', '')] *)
Definition replace_commas (s : list ascii) : list ascii :=
  filter (fun a => negb (Ascii.eqb a ",")) s.

Fixpoint starts_with (p s : list ascii) : bool :=
  match p, s with
  | [], _ => true
  | _ :: _, [] => false
  | a :: p', b :: s' => Ascii.eqb a b && starts_with p' s'
  end.

(** [rfind_from p s i]: [s] is the part of the text from index [i] on; the
    greatest index at which [p] occurs, or [-1]. *)
Fixpoint rfind_from (p s : list ascii) (i : Z) : Z :=
  match s with
  | [] => if starts_with p [] then i else -1
  | _ :: s' =>
    let r := rfind_from p s' (i + 1) in
    if 0 <=? r then r else if starts_with p s then i else -1
  end.

(** [s.rfind(p)] *)
Definition rfind (s p : list ascii) : Z := rfind_from p s 0.

(** [s[i:j]] for [0 <= i <= j]. *)
Definition slice (s : list ascii) (i j : nat) : list ascii :=
  firstn (j - i) (skipn i s).

Definition digit_value (a : ascii) : Z := Z.of_nat (code a) - 48.

(** The integer written by a list of digits. *)
Definition digits_value (l : list ascii) : Z :=
  fold_left (fun acc a => 10 * acc + digit_value a) l 0.

Fixpoint span_digits (l : list ascii) : list ascii * list ascii :=
  match l with
  | a :: l' =>
    if is_digit a
    then let '(ds, rest) := span_digits l' in (a :: ds, rest)
    else ([], l)
  | [] => ([], [])
  end.

(** [float(s)] on the literals the two patterns can match: digits, or
    digits, a point and digits.  [float] accepts more (a sign, an exponent,
    blanks); no match has these, and every other string is an error here. *)
Definition py_float (s : list ascii) : option PyFloat.float :=
  let '(ip, rest) := span_digits s in
  match ip, rest with
  | [], _ => None
  | _ :: _, [] => Some (PyFloat.of_ratio (digits_value ip) 1)
  | _ :: _, dot :: fp =>
    if Ascii.eqb dot "." && negb (Nat.eqb (List.length fp) 0)
       && forallb is_digit fp
    then Some (PyFloat.of_ratio (digits_value (ip ++ fp))
                                (10 ^ Z.of_nat (List.length fp)))
    else None
  end.

End PyStr.

(** ** Regular expressions, matched as [re] does *)

Module Re.
Import PyStr.

Inductive regex : Type :=
| Empty
| Class (p : ascii -> bool)
| Boundary
| Cat (r1 r2 : regex)
| Alt (r1 r2 : regex)
| Star (r : regex)
| Group (n : nat) (r : regex).

(** [r?], [r+], [r{3}], [r{1,3}], all greedy. *)
Definition Opt (r : regex) : regex := Alt r Empty.
Definition Plus (r : regex) : regex := Cat r (Star r).
Definition Rep3 (r : regex) : regex := Cat r (Cat r r).
Definition Rep1to3 (r : regex) : regex := Cat r (Opt (Cat r (Opt r))).

(** The spans of the groups that took part in a match, latest first. *)
Definition caps : Type := list (nat * (nat * nat)).

Fixpoint cap_lookup (c : caps) (n : nat) : option (nat * nat) :=
  match c with
  | [] => None
  | (k, sp) :: c' => if Nat.eqb k n then Some sp else cap_lookup c' n
  end.

Section Subject.
Variable s : list ascii.

Definition word_at (i : nat) : bool :=
  match nth_error s i with
  | Some a => is_word a
  | None => false
  end.

Definition word_before (i : nat) : bool :=
  match i with
  | O => false
  | S j => word_at j
  end.

(** [\b] holds at [i]. *)
Definition at_boundary (i : nat) : bool :=
  xorb (word_before i) (word_at i).

(** The greedy loop of [r*], where [body] is the matcher of [r]: one
    more iteration first, then none.  An iteration must consume a
    character, so the text's length bounds their number. *)
Fixpoint star_loop (body : nat -> caps -> list (nat * caps))
    (fuel : nat) (i : nat) (c : caps) : list (nat * caps) :=
  match fuel with
  | O => [(i, c)]
  | S fuel' =>
    flat_map (fun jc => if (i <? fst jc)%nat
                        then star_loop body fuel' (fst jc) (snd jc)
                        else [])
             (body i c)
    ++ [(i, c)]
  end.

(** [run r i c]: every way [r] matches from index [i], as the end index
    and the groups, in the order in which the backtracking matcher finds
    them. *)
Fixpoint run (r : regex) (i : nat) (c : caps) : list (nat * caps) :=
  match r with
  | Empty => [(i, c)]
  | Class p =>
    match nth_error s i with
    | Some a => if p a then [(S i, c)] else []
    | None => []
    end
  | Boundary => if at_boundary i then [(i, c)] else []
  | Cat r1 r2 => flat_map (fun jc => run r2 (fst jc) (snd jc)) (run r1 i c)
  | Alt r1 r2 => run r1 i c ++ run r2 i c
  | Star r1 => star_loop (run r1) (List.length s) i c
  | Group n r1 =>
    map (fun jc => (fst jc, (n, (i, fst jc)) :: snd jc)) (run r1 i c)
  end.

Record re_match : Type :=
  { m_start : nat; m_end : nat; m_caps : caps }.

(** The match the matcher reports at [i]: the first success.  When the
    previous match was empty and ended at [i], an empty match at [i] is
    refused and the matcher backtracks ([must_advance]). *)
Definition match_at (r : regex) (i : nat) (must_advance : bool)
  : option re_match :=
  match filter (fun jc => negb (must_advance && Nat.eqb (fst jc) i))
               (run r i []) with
  | [] => None
  | (j, c) :: _ => Some {| m_start := i; m_end := j; m_caps := c |}
  end.

(** The scan of [finditer] from [pos] on: the leftmost match, then the
    scan goes on where the match ended. *)
Fixpoint scan (fuel : nat) (r : regex) (pos : nat) (must_advance : bool)
  : list re_match :=
  match fuel with
  | O => []
  | S fuel' =>
    if (List.length s <? pos)%nat then []
    else
      match match_at r pos must_advance with
      | Some m =>
        m :: scan fuel' r (m_end m) (Nat.eqb (m_end m) pos)
      | None => scan fuel' r (S pos) false
      end
  end.

(** [pattern.finditer(s)]; a position is visited at most twice. *)
Definition finditer (r : regex) : list re_match :=
  scan (2 * List.length s + 2) r 0%nat false.

(** [m.group(0)] *)
Definition group0 (m : re_match) : list ascii :=
  slice s (m_start m) (m_end m).

(** [m.group(n)] for [n >= 1]: [None] when the group did not take part
    in the match. *)
Definition group (m : re_match) (n : nat) : option (list ascii) :=
  match cap_lookup (m_caps m) n with
  | Some (i, j) => Some (slice s i j)
  | None => None
  end.

(** [pattern.findall(s)] for a pattern without groups. *)
Definition findall (r : regex) : list (list ascii) :=
  map group0 (finditer r).

End Subject.

(** The texts a pattern matches, whatever stands around them ([\b]
    consumes nothing). *)
Inductive star_of (P : list ascii -> Prop) : list ascii -> Prop :=
| star_nil : star_of P []
| star_app l1 l2 : P l1 -> star_of P l2 -> star_of P (l1 ++ l2).

Fixpoint lang (r : regex) (l : list ascii) : Prop :=
  match r with
  | Empty => l = []
  | Class p => exists a, l = [a] /\ p a = true
  | Boundary => l = []
  | Cat r1 r2 => exists l1 l2, l = l1 ++ l2 /\ lang r1 l1 /\ lang r2 l2
  | Alt r1 r2 => lang r1 l \/ lang r2 l
  | Star r1 => star_of (lang r1) l
  | Group _ r1 => lang r1 l
  end.

End Re.

(** ** main.py *)

Import PyStr Re.

Open Scope string_scope.
Open Scope list_scope.
Open Scope Z_scope.

(** A page of the document: what [page.extract_text()] returns. *)
Definition page : Type := option string.

(** [SCALE_KEYWORDS], in the order in which the dict is written. *)
Definition SCALE_KEYWORDS : list (string * Z) :=
  [ ("million", 1000000);
    ("millions", 1000000);
    ("billion", 1000000000);
    ("billions", 1000000000);
    ("thousand", 1000);
    ("thousands", 1000) ].

Definition digit : regex := Class is_digit.
Definition comma : regex := Class (Ascii.eqb ",").
Definition point : regex := Class (Ascii.eqb ".").

(** [\d{1,3}(?:,\d{3})*(?:\.\d+)?] *)
Definition grouped_number : regex :=
  Cat (Rep1to3 digit)
      (Cat (Star (Cat comma (Rep3 digit))) (Opt (Cat point (Plus digit)))).

(** [\d+\.\d+] *)
Definition decimal_number : regex :=
  Cat (Plus digit) (Cat point (Plus digit)).

(** [\d+] *)
Definition integer_number : regex := Plus digit.

Definition is_suffix_letter (a : ascii) : bool :=
  existsb (Ascii.eqb a) (chars "KkMmBbTt").

(** The pattern of [parse_number_with_suffix]:
    [\b(\d{1,3}(?:,\d{3})*(?:\.\d+)?|\d+\.\d+|\d+)([KkMmBbTt])\b] *)
Definition suffix_pattern : regex :=
  Cat Boundary
      (Cat (Group 1 (Alt grouped_number (Alt decimal_number integer_number)))
           (Cat (Group 2 (Class is_suffix_letter)) Boundary)).

(** The pattern of [extract_numbers]:
    [\b\d{1,3}(?:,\d{3})*(?:\.\d+)?|\b\d+\.\d+|\b\d+] *)
Definition number_pattern : regex :=
  Alt (Cat Boundary grouped_number)
      (Alt (Cat Boundary decimal_number) (Cat Boundary integer_number)).

Definition suffix_multipliers : list (string * Z) :=
  [ ("k", 1000); ("K", 1000);
    ("m", 1000000); ("M", 1000000);
    ("b", 1000000000); ("B", 1000000000);
    ("t", 1000000000000); ("T", 1000000000000) ].

(** The value the dict has for a key that is a string. *)
Fixpoint dict_lookup (d : list (string * Z)) (key : list ascii) : option Z :=
  match d with
  | [] => None
  | (k, v) :: d' =>
    if list_eq_dec ascii_dec (chars k) key then Some v else dict_lookup d' key
  end.

(** [d.get(key, default)]; the key is a string or [None], which is no key
    of a dict of strings. *)
Definition dict_get (d : list (string * Z)) (key : option (list ascii))
    (default : Z) : Z :=
  match key with
  | Some k =>
    match dict_lookup d k with
    | Some v => v
    | None => default
    end
  | None => default
  end.

(** The body of the loop of [parse_number_with_suffix], for one match.
    [m.group(1)] must be a string for [replace]; [m.group(2)] is only
    looked up. *)
Definition suffix_tuple (s : list ascii) (m : re_match)
  : option (PyFloat.float * PyFloat.float * Z) :=
  g1 <- group s m 1 ;;
  raw_num <- py_float (replace_commas g1) ;;
  let suffix := group s m 2 in
  let multiplier := dict_get suffix_multipliers suffix 1 in
  let scaled_value := PyFloat.mul_int raw_num multiplier in
  Some (raw_num, scaled_value, multiplier).

Definition parse_number_with_suffix (text : string)
  : option (list (PyFloat.float * PyFloat.float * Z)) :=
  let s := chars text in
  mapM (suffix_tuple s) (finditer s suffix_pattern).

(** The two surface forms of a keyword, in the order of the inner loop. *)
Definition keyword_forms (word : string) : list string :=
  [ ("in " ++ word)%string; ("(" ++ word ++ ")")%string ].

(** One turn of the inner loop of [find_scale_factor]; the state is
    [(last_pos, chosen_factor)]. *)
Definition scale_step (text_lower : list ascii) (factor : Z)
    (st : Z * Z) (pattern : string) : Z * Z :=
  let index := rfind text_lower (chars pattern) in
  if fst st <? index then (index, factor) else st.

Definition find_scale_factor_in (keywords : list (string * Z)) (text : string) : Z :=
  let text_lower := lower (chars text) in
  snd (fold_left
         (fun st wf => fold_left (scale_step text_lower (snd wf))
                                 (keyword_forms (fst wf)) st)
         keywords (-1, 1)).

Definition find_scale_factor (text : string) : Z :=
  find_scale_factor_in SCALE_KEYWORDS text.

Definition extract_numbers (text : string) : option (list PyFloat.float) :=
  let s := chars text in
  mapM (fun num => py_float (replace_commas num)) (findall s number_pattern).

(** An element of [top_values]: [(scaled, page, raw, multiplier)]. *)
Record entry : Type :=
  { scaled_value : PyFloat.float;
    page_number : Z;
    raw_value : PyFloat.float;
    multiplier : Z }.

(** The set [suffix_values], as the list of the values added to it; the
    program only asks whether a value is in the set, and [==] decides that. *)
Definition set_mem (x : PyFloat.float) (values : list PyFloat.float) : bool :=
  existsb (PyFloat.eqb x) values.

(** [values.add(x)] *)
Definition set_add (x : PyFloat.float) (values : list PyFloat.float)
  : list PyFloat.float :=
  x :: values.

(** [(scaled_value, i + 1, raw_num, multiplier)] for a suffixed number. *)
Definition suffix_entry (i : nat) (t : PyFloat.float * PyFloat.float * Z) : entry :=
  let '(raw_num, scaled, mult) := t in
  {| scaled_value := scaled; page_number := Z.of_nat i + 1;
     raw_value := raw_num; multiplier := mult |}.

(** [(scaled, i + 1, num, scale_factor)] for a plain number. *)
Definition plain_entry (i : nat) (scale_factor : Z) (num : PyFloat.float) : entry :=
  {| scaled_value := PyFloat.mul_int num scale_factor;
     page_number := Z.of_nat i + 1;
     raw_value := num; multiplier := scale_factor |}.

(** The first loop over a page: the entries of the suffixed numbers are
    appended to [top_values] and their raw values are collected. *)
Definition add_suffix_numbers (i : nat)
    (suffix_numbers : list (PyFloat.float * PyFloat.float * Z))
    (top_values : list entry) : list entry * list PyFloat.float :=
  fold_left
    (fun st t => (fst st ++ [suffix_entry i t], set_add (fst (fst t)) (snd st)))
    suffix_numbers (top_values, []).

(** The second loop over a page: the plain numbers, scaled by the factor of
    the page, unless their value is among the suffixed ones. *)
Definition add_plain_numbers (i : nat) (numbers : list PyFloat.float)
    (scale_factor : Z) (suffix_values : list PyFloat.float)
    (top_values : list entry) : list entry :=
  fold_left
    (fun tv num =>
       if set_mem num suffix_values then tv
       else tv ++ [plain_entry i scale_factor num])
    numbers top_values.

(** The body of the loop over the pages of [find_largest_number_in_pdf] for
    a page with text. *)
Definition scaled_page (i : nat) (text : string) (top_values : list entry)
  : option (list entry) :=
  suffix_numbers <- parse_number_with_suffix text ;;
  let '(top_values, suffix_values) :=
    add_suffix_numbers i suffix_numbers top_values in
  numbers <- extract_numbers text ;;
  let scale_factor := find_scale_factor text in
  Some (add_plain_numbers i numbers scale_factor suffix_values top_values).

(** [if not text]: the page gave [None] or the empty string. *)
Definition no_text (p : page) : bool :=
  match p with
  | None => true
  | Some EmptyString => true
  | Some _ => false
  end.

(** The loop over [enumerate(pdf.pages)], from page index [i] on. *)
Fixpoint scaled_pages (i : nat) (pages : list page) (top_values : list entry)
  : option (list entry) :=
  match pages with
  | [] => Some top_values
  | p :: rest =>
    match p with
    | Some (String _ _ as text) =>
      top_values' <- scaled_page i text top_values ;;
      scaled_pages (S i) rest top_values'
    | _ => scaled_pages (S i) rest top_values
    end
  end.

(** [l.sort(reverse=True, key=key)]: a stable sort, largest key first; the
    elements with equal keys keep their order.  The keys of this program
    are totally ordered (no NaN), so every stable sort gives the same list;
    the embedding sorts by insertion. *)
Section Sort.
Context {A : Type}.
Variable key : A -> PyFloat.float.

Fixpoint insert_desc (x : A) (l : list A) : list A :=
  match l with
  | [] => [x]
  | y :: l' =>
    if PyFloat.ltb (key x) (key y) then y :: insert_desc x l'
    else x :: l
  end.

Fixpoint sort_desc (l : list A) : list A :=
  match l with
  | [] => []
  | x :: l' => insert_desc x (sort_desc l')
  end.
End Sort.

(** [l[:n]] for a Python int [n]: a negative [n] counts from the end. *)
Definition slice_to {A : Type} (l : list A) (n : Z) : list A :=
  if 0 <=? n then firstn (Z.to_nat n) l
  else firstn (List.length l - Z.to_nat (- n)) l.

Definition find_largest_number_in_pdf (pdf : list page) (top_n : Z)
  : option (list entry) :=
  top_values <- scaled_pages 0 pdf [] ;;
  Some (slice_to (sort_desc scaled_value top_values) top_n).

(** The loop over the pages of [find_largest_raw_numbers]. *)
Fixpoint raw_pages (i : nat) (pages : list page)
    (raw_values : list (PyFloat.float * Z)) : option (list (PyFloat.float * Z)) :=
  match pages with
  | [] => Some raw_values
  | p :: rest =>
    match p with
    | Some (String _ _ as text) =>
      numbers <- extract_numbers text ;;
      raw_pages (S i) rest
        (fold_left (fun rv num => rv ++ [(num, Z.of_nat i + 1)]) numbers raw_values)
    | _ => raw_pages (S i) rest raw_values
    end
  end.

Definition find_largest_raw_numbers (pdf : list page) (top_n : Z)
  : option (list (PyFloat.float * Z)) :=
  raw_values <- raw_pages 0 pdf [] ;;
  Some (slice_to (sort_desc fst raw_values) top_n).

(** ** Notions of the statements *)

(** [a] may stand before [b] in a list sorted largest key first. *)
Definition desc {A : Type} (key : A -> PyFloat.float) (a b : A) : Prop :=
  PyFloat.leb (key b) (key a) = true.

(** [a] has the key [v], as [==] sees it. *)
Definition same_key {A : Type} (key : A -> PyFloat.float) (v : PyFloat.float)
    (a : A) : bool :=
  PyFloat.eqb (key a) v.

(** What a matcher of the texts [P] must do on the subject [s]: end after
    the start, on a text of [P]. *)
Definition sound_for (s : list ascii) (P : list ascii -> Prop)
    (body : nat -> caps -> list (nat * caps)) : Prop :=
  forall i c j c', In (j, c') (body i c) -> (i <= j)%nat /\ P (slice s i j).

(** What a matcher must do besides: stay inside the subject [s]. *)
Definition bounded_for (s : list ascii)
    (body : nat -> caps -> list (nat * caps)) : Prop :=
  forall i c j c', In (j, c') (body i c) ->
    (i <= List.length s)%nat -> (j <= List.length s)%nat.

(** What is left to scan from [pos]: a position is visited at most twice. *)
Definition scan_measure (s : list ascii) (pos : nat) (must_advance : bool)
  : nat :=
  2 * (S (List.length s) - pos) - (if must_advance then 1 else 0).

(** The shape of the text of a number: a digit, then digits and commas,
    then nothing or a point and at least one digit. *)
Definition digit_or_comma (a : ascii) : bool := is_digit a || Ascii.eqb a ",".

Definition int_part (l : list ascii) : Prop :=
  exists a l', l = a :: l' /\ is_digit a = true /\ forallb digit_or_comma l' = true.

Definition frac_part (l : list ascii) : Prop :=
  l = [] \/ exists b l', l = "."%char :: b :: l' /\ forallb is_digit (b :: l') = true.

Definition numeral (l : list ascii) : Prop :=
  exists ip fp, l = ip ++ fp /\ int_part ip /\ frac_part fp.

Definition number_body : regex :=
  Alt grouped_number (Alt decimal_number integer_number).

Definition raw_of (t : PyFloat.float * PyFloat.float * Z) : PyFloat.float :=
  fst (fst t).

(** The entries one page adds to [top_values]. *)
Definition page_entries (i : nat) (text : string) : option (list entry) :=
  suffix_numbers <- parse_number_with_suffix text ;;
  numbers <- extract_numbers text ;;
  Some (map (suffix_entry i) suffix_numbers ++
        map (plain_entry i (find_scale_factor text))
            (filter (fun num => negb (set_mem num (map raw_of suffix_numbers)))
                    numbers)).

(** The multipliers of the suffix letters. *)
Definition suffix_factors : list Z :=
  [1000; 1000000; 1000000000; 1000000000000].

(** [t] is the tuple that [parse_number_with_suffix] makes of the match [m]:
    the number of group 1 and the multiplier that the table has for the
    letter of group 2. *)
Definition tuple_of_match (s : list ascii) (m : re_match)
    (t : PyFloat.float * PyFloat.float * Z) : Prop :=
  exists g1 a raw_num mult,
    group s m 1 = Some g1 /\ py_float (replace_commas g1) = Some raw_num /\
    group s m 2 = Some [a] /\ is_suffix_letter a = true /\
    dict_lookup suffix_multipliers [a] = Some mult /\
    t = (raw_num, PyFloat.mul_int raw_num mult, mult).

(** The pairs one page adds to [raw_values]. *)
Definition raw_entries (i : nat) (text : string) : option (list (PyFloat.float * Z)) :=
  numbers <- extract_numbers text ;;
  Some (map (fun num => (num, Z.of_nat i + 1)) numbers).

(** [text] is the text of the page of index [k], and the page is not skipped. *)
Definition page_text (pdf : list page) (k : nat) (text : string) : Prop :=
  nth_error pdf k = Some (Some text) /\ no_text (Some text) = false.

(** [p] occurs in [s] at index [k]. *)
Definition occurs_at (p s : list ascii) (k : nat) : Prop :=
  (k <= List.length s)%nat /\ starts_with p (skipn k s) = true.

(** The surface forms of the keywords with their factors, in the order in
    which the two loops of [find_scale_factor] visit them. *)
Definition scale_forms (keywords : list (string * Z)) : list (string * Z) :=
  flat_map (fun wf => map (fun p => (p, snd wf)) (keyword_forms (fst wf)))
           keywords.

(** The index of the last occurrence of a form in the lower-cased text. *)
Definition last_index (text : string) (form : string) : Z :=
  rfind (lower (chars text)) (chars form).

(** Two forms that can occur at the same index have the same factor. *)
Definition tie_free (forms : list (string * Z)) : Prop :=
  forall p f p' f',
    In (p, f) forms -> In (p', f') forms ->
    starts_with (chars p) (chars p') || starts_with (chars p') (chars p) = true ->
    f = f'.

(** The two loops of [find_scale_factor] as one loop over the forms. *)
Definition scale_state (text : string) (forms : list (string * Z))
    (st : Z * Z) : Z * Z :=
  fold_left (fun st pf => scale_step (lower (chars text)) (snd pf) st (fst pf))
            forms st.

(** [0.0 <= x] *)
Definition ge_zero (x : PyFloat.float) : Prop :=
  PyFloat.leb PyFloat.zero x = true.

(** The entry [e] of the page [text] comes from a match of the suffix
    pattern: its multiplier is the one of the letter of the match. *)
Definition suffix_detected (text : string) (e : entry) : Prop :=
  exists m t, In m (finditer (chars text) suffix_pattern) /\
    tuple_of_match (chars text) m t /\
    raw_value e = raw_of t /\ multiplier e = snd t.

(** The entry [e] of the page [text] is a plain number, scaled by the
    factor of the page; its value is not among the suffixed ones. *)
Definition contextual (text : string) (e : entry) : Prop :=
  multiplier e = find_scale_factor text /\
  exists numbers suffix_numbers,
    extract_numbers text = Some numbers /\ In (raw_value e) numbers /\
    parse_number_with_suffix text = Some suffix_numbers /\
    set_mem (raw_value e) (map raw_of suffix_numbers) = false.

(** Neither pattern matches anywhere in [text]. *)
Definition no_numeric_token (text : string) : Prop :=
  finditer (chars text) number_pattern = [] /\
  finditer (chars text) suffix_pattern = [].

Definition digit_free (text : string) : Prop :=
  forallb (fun a => negb (is_digit a)) (chars text) = true.

(** ["\n"] *)
Definition newline : string := String "010"%char EmptyString.

(** ["(in millions)\nTotal: 134.0M\nOther: 12"] *)
Definition millions_page : string :=
  ("(in millions)" ++ newline ++ "Total: 134.0M" ++ newline ++ "Other: 12")%string.

(** The same page under another keyword:
    ["(in thousands)\nTotal: 134.0M\nOther: 12"] *)
Definition thousands_page : string :=
  ("(in thousands)" ++ newline ++ "Total: 134.0M" ++ newline ++ "Other: 12")%string.

(** The tuple of the match [134.0M]: [(134.0, 134000000.0, 1000000)]. *)
Definition tuple_134M : PyFloat.float * PyFloat.float * Z :=
  (PyFloat.of_int 134, PyFloat.of_int 134000000, 1000000).

(** The entry [(float(scaled), page, float(raw), multiplier)]. *)
Definition entry_of (scaled page_no raw mult : Z) : entry :=
  {| scaled_value := PyFloat.of_int scaled; page_number := page_no;
     raw_value := PyFloat.of_int raw; multiplier := mult |}.

(** [l'] is a stable arrangement of [l], largest key first: it holds the
    elements of [l], no element
    stands before one with a greater key, and the elements with the same
    key stand as in [l]. *)
Definition stable_desc {A : Type} (key : A -> PyFloat.float) (l l' : list A)
  : Prop :=
  Permutation l l' /\ StronglySorted (desc key) l' /\
  forall v, filter (same_key key v) l' = filter (same_key key v) l.

(** Groups of a comma and three digits, one after the other. *)
Inductive comma_groups : list ascii -> Prop :=
| groups_nil : comma_groups []
| groups_cons a b c l :
    is_digit a = true -> is_digit b = true -> is_digit c = true ->
    comma_groups l -> comma_groups (","%char :: a :: b :: c :: l).

(** The shape of a token of [extract_numbers]: one to three digits, groups
    of a comma and three digits, then nothing or a point and digits. *)
Definition grouped_shape (l : list ascii) : Prop :=
  exists d g f,
    l = d ++ g ++ f /\
    (1 <= List.length d <= 3)%nat /\ forallb is_digit d = true /\
    comma_groups g /\ frac_part f.

(** The span of a match: not empty, inside the subject. *)
Definition span_inside (s : list ascii) (m : re_match) : Prop :=
  (m_start m < m_end m)%nat /\ (m_end m <= List.length s)%nat.

(** [m2] starts where [m1] ends, or later. *)
Definition before (m1 m2 : re_match) : Prop := (m_end m1 <= m_start m2)%nat.

(** A character of the ASCII range that is no word character, no comma and
    no point: a blank, a line break, a bracket, a sign. *)
Definition separator (c : ascii) : bool :=
  (code c <? 128)%nat && negb (is_word c)
  && negb (Ascii.eqb "," c) && negb (Ascii.eqb "." c).

(** No character class of [r] accepts [c]. *)
Fixpoint rejects (r : regex) (c : ascii) : bool :=
  match r with
  | Empty => true
  | Class p => negb (p c)
  | Boundary => true
  | Cat r1 r2 => rejects r1 c && rejects r2 c
  | Alt r1 r2 => rejects r1 c && rejects r2 c
  | Star r1 => rejects r1 c
  | Group _ r1 => rejects r1 c
  end.

(** A pattern that matches no empty text. *)
Definition never_empty (r : regex) : Prop := forall l, lang r l -> l <> [].

(** The same groups, end and match, [n] characters further in the text. *)
Definition shift_caps (n : nat) (c : caps) : caps :=
  map (fun ks => (fst ks, (n + fst (snd ks), n + snd (snd ks))%nat)) c.

Definition shift_end (n : nat) (jc : nat * caps) : nat * caps :=
  ((n + fst jc)%nat, shift_caps n (snd jc)).

Definition shift_match (n : nat) (m : re_match) : re_match :=
  {| m_start := n + m_start m;
     m_end := n + m_end m;
     m_caps := shift_caps n (m_caps m) |}.

(** ** Facts *)

Module PyFloatFacts.
Import PyFloat.

(** The conversion on known values: 0.1 is 0x1.999999999999ap-4, 56.7 is
    0x1.c59999999999ap+5, 2^53 + 1 is a tie and goes to the even 2^53, and a
    literal beyond the largest float is [inf]. *)
Example of_ratio_tenth :
  of_ratio 1 10 = S754_finite false 7205759403792794 (-56).
Proof. reflexivity. Qed.

Example of_ratio_56_7 :
  of_ratio 567 10 = S754_finite false 7979815589747098 (-47).
Proof. reflexivity. Qed.

Example of_ratio_tie :
  of_ratio 9007199254740993 1 = S754_finite false 4503599627370496 1.
Proof. reflexivity. Qed.

Example of_ratio_overflow : of_ratio (10 ^ 400) 1 = S754_infinity false.
Proof. vm_compute. reflexivity. Qed.

Example mul_int_56_7_million :
  mul_int (of_ratio 567 10) 1000000 = of_int 56700000.
Proof. vm_compute. reflexivity. Qed.

Ltac fold_compare :=
  repeat match goal with
         | |- context [Pos.compare_cont Eq ?a ?b] =>
           change (Pos.compare_cont Eq a b) with (Pos.compare a b)
         end.

Lemma iter_pos_inv {A : Type} (P : A -> Prop) (f : A -> A) :
  (forall x, P x -> P (f x)) -> forall n x, P x -> P (iter_pos f n x).
Proof.
  intros Hf n; induction n as [n IH | n IH |]; intros x Hx; simpl; auto.
Qed.

Lemma shr_1_nonneg mrs : 0 <= shr_m mrs -> 0 <= shr_m (shr_1 mrs).
Proof.
  destruct mrs as [m r s]; simpl.
  destruct m as [| p | p]; simpl; try lia; destruct p; simpl; lia.
Qed.

Lemma shr_nonneg mrs e n :
  0 <= shr_m mrs -> 0 <= shr_m (fst (shr mrs e n)).
Proof.
  intros H; unfold shr; destruct n; simpl; auto.
  apply iter_pos_inv; auto using shr_1_nonneg.
Qed.

Lemma shr_record_of_loc_m m l : shr_m (shr_record_of_loc m l) = m.
Proof. destruct l as [| []]; reflexivity. Qed.

Lemma shr_fexp_nonneg m e l :
  0 <= m -> 0 <= shr_m (fst (shr_fexp prec emax m e l)).
Proof.
  intros H; unfold shr_fexp; apply shr_nonneg.
  now rewrite shr_record_of_loc_m.
Qed.

Lemma round_nearest_even_nonneg m l : 0 <= m -> 0 <= round_nearest_even m l.
Proof.
  intros H; destruct l as [| []]; simpl; try lia.
  destruct (Z.even m); lia.
Qed.

Lemma round_aux_nonneg mx ex lx :
  0 <= mx -> nonneg (binary_round_aux prec emax false mx ex lx).
Proof.
  intros H; unfold binary_round_aux.
  pose proof (shr_fexp_nonneg mx ex lx H) as H1.
  destruct (shr_fexp prec emax mx ex lx) as [mrs' e']; simpl in H1.
  pose proof (shr_fexp_nonneg _ e' loc_Exact
                (round_nearest_even_nonneg _ (loc_of_shr_record mrs') H1)) as H2.
  destruct (shr_fexp prec emax _ e' loc_Exact) as [mrs'' e'']; simpl in H2.
  destruct (shr_m mrs'') as [| m | m]; try lia; [exact I |].
  destruct (e'' <=? emax - prec); exact I.
Qed.

Lemma of_ratio_nonneg n d : 0 <= n -> 0 < d -> nonneg (of_ratio n d).
Proof.
  intros Hn Hd; unfold of_ratio.
  destruct n as [| p | p]; [exact I | | lia].
  unfold SFdiv_core_binary.
  set (e' := Z.min _ _). set (m' := match 0 - 0 - e' with Z0 => _ | Zpos _ => _ | Zneg _ => _ end).
  assert (Hm : 0 <= m').
  { subst m'; destruct (0 - 0 - e'); try lia. apply Z.shiftl_nonneg; lia. }
  pose proof (Z.div_pos m' d Hm Hd) as Hq.
  unfold Z.div in Hq. destruct (Z.div_eucl m' d) as [q r]; simpl in Hq.
  now apply round_aux_nonneg.
Qed.

Lemma mul_nonneg x y : nonneg x -> finite_pos y -> nonneg (mul x y).
Proof.
  destruct x as [[] | [] | | [] mx ex]; simpl; try contradiction;
    destruct y as [[] | [] | | [] my ey]; simpl; try contradiction;
    intros _ _; try exact I.
  apply round_aux_nonneg; lia.
Qed.

Lemma ltb_asym x y : ltb x y = true -> ltb y x = false.
Proof.
  unfold ltb, SFltb.
  destruct x as [? | [] | | [] mx ex], y as [? | [] | | [] my ey];
    simpl; try congruence.
  all: rewrite (Z.compare_antisym ex ey);
    destruct (ex ?= ey); simpl; try congruence.
  all: fold_compare;
    rewrite (Pos.compare_antisym mx my); destruct (mx ?= my)%positive;
    simpl; congruence.
Qed.

Lemma leb_ltb x y : nonneg x -> nonneg y -> leb y x = negb (ltb x y).
Proof.
  unfold leb, ltb, SFleb, SFltb.
  destruct x as [[] | [] | | [] mx ex], y as [[] | [] | | [] my ey];
    simpl; try contradiction; intros _ _; try reflexivity.
  rewrite (Z.compare_antisym ex ey); destruct (ex ?= ey); simpl; try reflexivity.
  fold_compare.
  rewrite (Pos.compare_antisym mx my); now destruct (mx ?= my)%positive.
Qed.

Lemma ltb_finite mx ex my ey :
  ltb (S754_finite false mx ex) (S754_finite false my ey) = true <->
  ex < ey \/ (ex = ey /\ (mx < my)%positive).
Proof.
  unfold ltb, SFltb; simpl.
  fold_compare.
  destruct (Z.compare_spec ex ey); destruct (Pos.compare_spec mx my);
    split; intros; try lia; try congruence.
Qed.

Lemma ltb_negtrans x y z :
  nonneg x -> nonneg y -> nonneg z ->
  ltb x y = false -> ltb y z = false -> ltb x z = false.
Proof.
  intros Hx Hy Hz Hxy Hyz.
  destruct (ltb x z) eqn:Hxz; [exfalso | reflexivity].
  destruct x as [[] | [] | | [] mx ex]; simpl in Hx; try contradiction;
    destruct y as [[] | [] | | [] my ey]; simpl in Hy; try contradiction;
    destruct z as [[] | [] | | [] mz ez]; simpl in Hz; try contradiction;
    try discriminate.
  apply ltb_finite in Hxz.
  assert (H1 : ~ (ex < ey \/ ex = ey /\ (mx < my)%positive))
    by (rewrite <- ltb_finite; congruence).
  assert (H2 : ~ (ey < ez \/ ey = ez /\ (my < mz)%positive))
    by (rewrite <- ltb_finite; congruence).
  lia.
Qed.

Lemma eqb_ltb x y v :
  eqb x v = true -> eqb y v = true -> ltb x y = false.
Proof.
  unfold eqb, ltb, SFeqb, SFltb.
  destruct x as [? | [] | | [] mx ex], y as [? | [] | | [] my ey],
      v as [? | [] | | [] mv ev]; simpl; try congruence.
  all: fold_compare.
  all: destruct (Z.compare_spec ex ev); simpl; try congruence;
    destruct (Pos.compare_spec mx mv); simpl; try congruence;
    destruct (Z.compare_spec ey ev); simpl; try congruence;
    destruct (Pos.compare_spec my mv); simpl; try congruence; subst.
  all: rewrite Z.compare_refl, Pos.compare_refl; reflexivity.
Qed.

Lemma eqb_ltb_l x y v :
  eqb x v = true -> ltb x y = true -> eqb y v = false.
Proof.
  intros H1 H2. destruct (eqb y v) eqn:E; auto.
  rewrite (eqb_ltb x y v H1 E) in H2; discriminate.
Qed.

End PyFloatFacts.

Import PyFloatFacts.

Section SortFacts.
Context {A : Type}.
Variable key : A -> PyFloat.float.

Lemma insert_desc_perm x l : Permutation (x :: l) (insert_desc key x l).
Proof.
  induction l as [| y l IH]; simpl; [reflexivity |].
  destruct (PyFloat.ltb (key x) (key y)); [| reflexivity].
  rewrite perm_swap. now constructor.
Qed.

Lemma sort_desc_perm l : Permutation l (sort_desc key l).
Proof.
  induction l as [| x l IH]; simpl; [constructor |].
  rewrite <- insert_desc_perm. now constructor.
Qed.

Lemma sort_desc_length l : List.length (sort_desc key l) = List.length l.
Proof. symmetry; apply Permutation_length, sort_desc_perm. Qed.

Lemma sort_desc_in x l : In x (sort_desc key l) <-> In x l.
Proof.
  split; apply Permutation_in;
    [symmetry |]; apply sort_desc_perm.
Qed.

Lemma insert_desc_same_key v x l :
  filter (same_key key v) (insert_desc key x l) = filter (same_key key v) (x :: l).
Proof.
  induction l as [| y l IH]; [reflexivity |].
  simpl insert_desc.
  destruct (PyFloat.ltb (key x) (key y)) eqn:Hlt; [| reflexivity].
  simpl in *. rewrite IH.
  destruct (same_key key v x) eqn:Ex; [| reflexivity].
  unfold same_key in Ex.
  assert (Ey : same_key key v y = false) by exact (eqb_ltb_l _ _ _ Ex Hlt).
  now rewrite Ey.
Qed.

Lemma sort_desc_same_key v l :
  filter (same_key key v) (sort_desc key l) = filter (same_key key v) l.
Proof.
  induction l as [| x l IH]; [reflexivity |].
  simpl sort_desc. rewrite insert_desc_same_key. simpl. now rewrite IH.
Qed.

Lemma insert_desc_sorted x l :
  PyFloat.nonneg (key x) -> Forall (fun a => PyFloat.nonneg (key a)) l ->
  StronglySorted (desc key) l -> StronglySorted (desc key) (insert_desc key x l).
Proof.
  intros Hx Hl Hs; induction Hs as [| y l Hs IH Hy]; simpl.
  - repeat constructor.
  - inversion Hl as [| ? ? Hky Hl']; subst.
    destruct (PyFloat.ltb (key x) (key y)) eqn:Hlt.
    + constructor; [now apply IH |].
      rewrite Forall_forall; intros z Hz.
      apply (Permutation_in _ (Permutation_sym (insert_desc_perm x l))) in Hz.
      destruct Hz as [<- | Hz].
      * unfold desc. rewrite leb_ltb by assumption.
        now rewrite (ltb_asym _ _ Hlt).
      * rewrite Forall_forall in Hy; now apply Hy.
    + constructor; [now constructor |].
      constructor.
      * unfold desc. rewrite leb_ltb by assumption. now rewrite Hlt.
      * rewrite Forall_forall in *; intros z Hz.
        specialize (Hy z Hz). specialize (Hl' z Hz).
        unfold desc in *. rewrite leb_ltb in * by assumption.
        apply negb_true_iff in Hy. apply negb_true_iff.
        now apply ltb_negtrans with (key y).
Qed.

Lemma sort_desc_sorted l :
  Forall (fun a => PyFloat.nonneg (key a)) l ->
  StronglySorted (desc key) (sort_desc key l).
Proof.
  induction 1 as [| x l Hx Hl IH]; simpl; [constructor |].
  apply insert_desc_sorted; auto.
  rewrite Forall_forall in *; intros z Hz.
  apply Hl. now apply sort_desc_in.
Qed.

Lemma slice_to_nonneg (l : list A) n :
  0 <= n -> slice_to l n = firstn (Z.to_nat n) l.
Proof. intros H; unfold slice_to. now rewrite (proj2 (Z.leb_le 0 n) H). Qed.

Lemma in_firstn_in (l : list A) k x : In x (firstn k l) -> In x l.
Proof.
  intros H; rewrite <- (firstn_skipn k l); apply in_or_app; now left.
Qed.

Lemma slice_to_incl (l : list A) n x : In x (slice_to l n) -> In x l.
Proof.
  unfold slice_to; destruct (0 <=? n); apply in_firstn_in.
Qed.

Lemma slice_to_nil n : slice_to (@nil A) n = [].
Proof. unfold slice_to; destruct (0 <=? n); apply firstn_nil. Qed.

End SortFacts.

Section ReFacts.
Variable s : list ascii.

Lemma slice_nil i : slice s i i = [].
Proof. unfold slice. now rewrite Nat.sub_diag. Qed.

Lemma firstn_plus {A : Type} a b (l : list A) :
  firstn (a + b) l = firstn a l ++ firstn b (skipn a l).
Proof.
  revert l; induction a as [| a IH]; intros [| x l]; simpl;
    rewrite ?firstn_nil; auto.
  now rewrite IH.
Qed.

Lemma skipn_plus {A : Type} a b (l : list A) :
  skipn (a + b) l = skipn b (skipn a l).
Proof.
  revert l; induction a as [| a IH]; intros [| x l]; simpl;
    rewrite ?skipn_nil; auto.
Qed.

Lemma slice_app i j k :
  (i <= j)%nat -> (j <= k)%nat -> slice s i k = slice s i j ++ slice s j k.
Proof.
  intros Hij Hjk; unfold slice.
  replace (k - i)%nat with ((j - i) + (k - j))%nat by lia.
  rewrite firstn_plus, <- skipn_plus.
  now replace (i + (j - i))%nat with j by lia.
Qed.

Lemma skipn_nth_error {A : Type} i (l : list A) a :
  nth_error l i = Some a -> skipn i l = a :: skipn (S i) l.
Proof.
  revert l; induction i as [| i IH]; intros [| x l]; simpl; try discriminate.
  - now intros [= ->].
  - intros H; now rewrite (IH l H).
Qed.

Lemma slice_one i a : nth_error s i = Some a -> slice s i (S i) = [a].
Proof.
  intros H; unfold slice. rewrite (skipn_nth_error _ _ _ H).
  now replace (S i - i)%nat with 1%nat by lia.
Qed.

Lemma star_loop_sound P body :
  sound_for s P body ->
  forall fuel, sound_for s (star_of P) (star_loop body fuel).
Proof.
  intros Hb fuel; induction fuel as [| fuel IH]; intros i c j c' Hin; simpl in Hin.
  - destruct Hin as [[= <- <-] | []]. rewrite slice_nil. split; [lia | constructor].
  - apply in_app_or in Hin. destruct Hin as [Hin | [[= <- <-] | []]].
    + apply in_flat_map in Hin. destruct Hin as [[j1 c1] [H1 H2]]; simpl in H2.
      destruct (Nat.ltb_spec i j1) as [Hlt | Hge]; [| contradiction].
      destruct (Hb _ _ _ _ H1) as [_ HP].
      destruct (IH _ _ _ _ H2) as [Hle HS].
      split; [lia |].
      rewrite (slice_app i j1 j) by lia. now constructor.
    + rewrite slice_nil. split; [lia | constructor].
Qed.

Lemma run_sound r : sound_for s (lang r) (run s r).
Proof.
  induction r as [| p | | r1 IH1 r2 IH2 | r1 IH1 r2 IH2 | r1 IH1 | n r1 IH1];
    intros i c j c' Hin; simpl in Hin.
  - destruct Hin as [[= <- <-] | []]. rewrite slice_nil. now split.
  - destruct (nth_error s i) as [a |] eqn:Ha; [| contradiction].
    destruct (p a) eqn:Hp; [| contradiction].
    destruct Hin as [[= <- <-] | []]. split; [lia |].
    exists a. now rewrite (slice_one _ _ Ha).
  - destruct (at_boundary s i); [| contradiction].
    destruct Hin as [[= <- <-] | []]. rewrite slice_nil. now split.
  - apply in_flat_map in Hin. destruct Hin as [[j1 c1] [H1 H2]]; simpl in H2.
    destruct (IH1 _ _ _ _ H1) as [Hle1 HL1].
    destruct (IH2 _ _ _ _ H2) as [Hle2 HL2].
    split; [lia |]. simpl.
    exists (slice s i j1), (slice s j1 j). now rewrite <- slice_app.
  - apply in_app_or in Hin. destruct Hin as [Hin | Hin].
    + destruct (IH1 _ _ _ _ Hin); split; [| left]; assumption.
    + destruct (IH2 _ _ _ _ Hin); split; [| right]; assumption.
  - exact (star_loop_sound _ _ IH1 _ _ _ _ _ Hin).
  - apply in_map_iff in Hin. destruct Hin as [[j1 c1] [[= <- <-] H1]].
    exact (IH1 _ _ _ _ H1).
Qed.

End ReFacts.

Section Shapes.

#[local] Arguments is_digit : simpl never.
#[local] Arguments Ascii.eqb : simpl never.

Lemma is_digit_not_comma a : is_digit a = true -> Ascii.eqb a "," = false.
Proof.
  intros H. destruct (Ascii.eqb_spec a ","%char) as [-> |]; [discriminate | reflexivity].
Qed.

Lemma digits_digit_or_comma l :
  forallb is_digit l = true -> forallb digit_or_comma l = true.
Proof.
  rewrite !forallb_forall; intros H a Ha; unfold digit_or_comma.
  now rewrite (H a Ha).
Qed.

Lemma lang_comma l : lang comma l -> l = [","%char].
Proof. intros [a [-> Ha]]. apply Ascii.eqb_eq in Ha. now subst. Qed.

Lemma lang_point l : lang point l -> l = ["."%char].
Proof. intros [a [-> Ha]]. apply Ascii.eqb_eq in Ha. now subst. Qed.

Lemma lang_star_digit l : lang (Star digit) l -> forallb is_digit l = true.
Proof.
  simpl; induction 1 as [| l1 l2 [a [-> Ha]] _ IH]; [reflexivity |].
  simpl. now rewrite Ha.
Qed.

Lemma lang_plus_digit l :
  lang (Plus digit) l ->
  exists a l', l = a :: l' /\ forallb is_digit (a :: l') = true.
Proof.
  intros [l1 [l2 [-> [[a [-> Ha]] H2]]]].
  exists a, l2; split; [reflexivity |].
  simpl. now rewrite Ha, (lang_star_digit _ H2).
Qed.

Lemma lang_rep1to3_digit l :
  lang (Rep1to3 digit) l ->
  exists a l', l = a :: l' /\ forallb is_digit (a :: l') = true.
Proof.
  intros [l1 [l2 [-> [[a [-> Ha]] H2]]]].
  exists a, l2; split; [reflexivity |].
  simpl; rewrite Ha; simpl.
  destruct H2 as [[m1 [m2 [-> [[b [-> Hb]] H3]]]] | ->]; [| reflexivity].
  simpl; rewrite Hb; simpl.
  destruct H3 as [[c [-> Hc]] | ->]; [| reflexivity].
  simpl. now rewrite Hc.
Qed.

Lemma lang_comma_groups l :
  lang (Star (Cat comma (Rep3 digit))) l -> forallb digit_or_comma l = true.
Proof.
  change (star_of (lang (Cat comma (Rep3 digit))) l ->
          forallb digit_or_comma l = true).
  induction 1 as [| l1 l2 H1 _ IH]; [reflexivity |].
  destruct H1 as [m1 [m2 [-> [Hm1 H3]]]].
  apply lang_comma in Hm1; subst m1.
  destruct H3 as [n1 [n2 [-> [[b [-> Hb]] H3]]]].
  destruct H3 as [k1 [k2 [-> [[c [-> Hc]] [d [-> Hd]]]]]].
  change (forallb digit_or_comma (b :: c :: d :: l2) = true).
  simpl. unfold digit_or_comma at 1 2 3.
  now rewrite Hb, Hc, Hd.
Qed.

Lemma lang_fraction l :
  lang (Opt (Cat point (Plus digit))) l -> frac_part l.
Proof.
  intros [[l1 [l2 [-> [H1 H2]]]] | ->]; [right | now left].
  apply lang_point in H1; subst l1.
  destruct (lang_plus_digit _ H2) as [b [l' [-> Hd]]].
  now exists b, l'.
Qed.

Lemma lang_numeral l : lang number_body l -> numeral l.
Proof.
  intros [H | [H | H]].
  - destruct H as [l1 [l2 [-> [H1 [l3 [l4 [-> [H3 H4]]]]]]]].
    destruct (lang_rep1to3_digit _ H1) as [a [l' [-> Hd]]].
    exists ((a :: l') ++ l3), l4; split; [now rewrite app_assoc |].
    split; [| now apply lang_fraction].
    exists a, (l' ++ l3); split; [reflexivity |].
    simpl in Hd; apply andb_true_iff in Hd; destruct Hd as [Ha Hl'].
    split; [exact Ha |].
    rewrite forallb_app, (digits_digit_or_comma _ Hl').
    now rewrite (lang_comma_groups _ H3).
  - destruct H as [l1 [l2 [-> [H1 H2]]]].
    destruct (lang_plus_digit _ H1) as [a [l' [-> Hd]]].
    exists (a :: l'), l2; split; [reflexivity |].
    simpl in Hd; apply andb_true_iff in Hd; destruct Hd as [Ha Hl'].
    split; [exists a, l'; auto using digits_digit_or_comma |].
    apply lang_fraction. now left.
  - destruct (lang_plus_digit _ H) as [a [l' [-> Hd]]].
    exists (a :: l'), []; split; [now rewrite app_nil_r |].
    simpl in Hd; apply andb_true_iff in Hd; destruct Hd as [Ha Hl'].
    split; [exists a, l'; auto using digits_digit_or_comma | now left].
Qed.

Lemma replace_commas_digits l :
  forallb digit_or_comma l = true -> forallb is_digit (replace_commas l) = true.
Proof.
  induction l as [| a l IH]; [reflexivity |]; simpl.
  intros H; apply andb_true_iff in H; destruct H as [Ha Hl].
  destruct (Ascii.eqb a ",") eqn:E; simpl; [now apply IH |].
  unfold digit_or_comma in Ha; rewrite E, orb_false_r in Ha.
  now rewrite Ha, IH.
Qed.

Lemma replace_commas_id l :
  forallb is_digit l = true -> replace_commas l = l.
Proof.
  induction l as [| a l IH]; [reflexivity |]; simpl.
  intros H; apply andb_true_iff in H; destruct H as [Ha Hl].
  now rewrite (is_digit_not_comma _ Ha), IH.
Qed.

Lemma span_digits_app ds rest :
  forallb is_digit ds = true ->
  match rest with [] => True | b :: _ => is_digit b = false end ->
  span_digits (ds ++ rest) = (ds, rest).
Proof.
  intros Hd Hr; induction ds as [| a ds IH]; simpl.
  - destruct rest as [| b rest]; [reflexivity |]. simpl in *. now rewrite Hr.
  - simpl in Hd; apply andb_true_iff in Hd; destruct Hd as [Ha Hd].
    now rewrite Ha, (IH Hd).
Qed.

Lemma span_digits_all ds :
  forallb is_digit ds = true -> span_digits ds = (ds, []).
Proof.
  intros H. pose proof (span_digits_app ds [] H I) as E.
  now rewrite app_nil_r in E.
Qed.

Lemma digit_value_nonneg a : is_digit a = true -> 0 <= digit_value a.
Proof.
  unfold is_digit, digit_value; intros H.
  apply andb_true_iff in H; destruct H as [H _].
  apply Nat.leb_le in H. lia.
Qed.

Lemma digits_fold_nonneg l : forall acc,
  0 <= acc -> forallb is_digit l = true ->
  0 <= fold_left (fun acc a => 10 * acc + digit_value a) l acc.
Proof.
  induction l as [| a l IH]; intros acc Hacc Hd; cbn [fold_left];
    [exact Hacc |].
  simpl in Hd; apply andb_true_iff in Hd; destruct Hd as [Ha Hd].
  apply IH; [| exact Hd].
  pose proof (digit_value_nonneg _ Ha). lia.
Qed.

Lemma digits_value_nonneg l :
  forallb is_digit l = true -> 0 <= digits_value l.
Proof. apply digits_fold_nonneg; lia. Qed.

(** [float] accepts the text of a number, once its commas are removed. *)
Lemma py_float_numeral l :
  numeral l ->
  exists x, py_float (replace_commas l) = Some x /\ PyFloat.nonneg x.
Proof.
  intros [ip [fp [-> [[a [l' [-> [Ha Hl']]]] Hfp]]]].
  unfold replace_commas; rewrite filter_app; fold (replace_commas fp).
  simpl filter; rewrite (is_digit_not_comma _ Ha); simpl negb; cbv iota.
  fold (replace_commas l').
  pose proof (replace_commas_digits _ Hl') as Hds.
  set (ds := replace_commas l') in *.
  assert (Hads : forallb is_digit (a :: ds) = true) by (simpl; now rewrite Ha).
  unfold py_float.
  destruct Hfp as [-> | [b [fd [-> Hfd]]]].
  - simpl replace_commas. rewrite app_nil_r.
    rewrite (span_digits_all (a :: ds) Hads).
    eexists; split; [reflexivity |].
    apply of_ratio_nonneg; [now apply digits_value_nonneg | lia].
  - assert (Hrc : replace_commas ("."%char :: b :: fd) = "."%char :: b :: fd).
    { simpl. f_equal. exact (replace_commas_id (b :: fd) Hfd). }
    rewrite Hrc.
    rewrite (span_digits_app (a :: ds) ("."%char :: b :: fd) Hads eq_refl).
    rewrite Hfd.
    exists (PyFloat.of_ratio (digits_value ((a :: ds) ++ b :: fd))
                             (10 ^ Z.of_nat (List.length (b :: fd)))).
    split; [reflexivity |].
    apply of_ratio_nonneg.
    + apply digits_value_nonneg.
      now rewrite forallb_app, Hads, Hfd.
    + apply Z.pow_pos_nonneg; lia.
Qed.

End Shapes.

Section MapM.
Context {A B : Type}.
Variable f : A -> option B.

Lemma mapM_Forall2 l bs :
  mapM f l = Some bs <-> Forall2 (fun a b => f a = Some b) l bs.
Proof.
  revert bs; induction l as [| a l IH]; intros bs; simpl.
  - split; [intros [= <-]; constructor | inversion 1; reflexivity].
  - destruct (f a) as [b |] eqn:Ea; simpl.
    + destruct (mapM f l) as [bs' |] eqn:El; simpl.
      * split.
        -- intros [= <-]. constructor; [exact Ea | now apply IH].
        -- inversion 1 as [| ? b' ? bs'' Hb Hbs]; subst.
           apply IH in Hbs. congruence.
      * split; [discriminate |].
        inversion 1 as [| ? b' ? bs'' Hb Hbs]; subst.
        apply IH in Hbs. discriminate.
    + split; [discriminate |].
      inversion 1; subst; congruence.
Qed.

Lemma mapM_total (P : A -> B -> Prop) l :
  (forall a, In a l -> exists b, f a = Some b /\ P a b) ->
  exists bs, mapM f l = Some bs /\ Forall2 P l bs.
Proof.
  induction l as [| a l IH]; intros H; simpl.
  - exists []; split; [reflexivity | constructor].
  - destruct (H a (or_introl eq_refl)) as [b [Eb Pb]].
    destruct IH as [bs [Ebs Pbs]]; [intros; apply H; now right |].
    exists (b :: bs); rewrite Eb, Ebs; split; [reflexivity | now constructor].
Qed.

End MapM.

Section FindIter.
Variable s : list ascii.

Lemma match_at_run r i adv m :
  match_at s r i adv = Some m ->
  m_start m = i /\ In (m_end m, m_caps m) (run s r i []).
Proof.
  unfold match_at.
  destruct (filter _ (run s r i [])) as [| [j c] l] eqn:E; [discriminate |].
  intros [= <-]; simpl. split; [reflexivity |].
  assert (Hin : In (j, c) (filter
    (fun jc => negb (adv && Nat.eqb (fst jc) i)) (run s r i [])))
    by (rewrite E; now left).
  now apply filter_In in Hin.
Qed.

Lemma scan_run r fuel : forall pos adv m,
  In m (scan s fuel r pos adv) ->
  In (m_end m, m_caps m) (run s r (m_start m) []).
Proof.
  induction fuel as [| fuel IH]; intros pos adv m; simpl; [contradiction |].
  destruct (Nat.ltb _ pos); [contradiction |].
  destruct (match_at s r pos adv) as [m' |] eqn:E.
  - intros [<- | Hin]; [| now apply IH in Hin].
    apply match_at_run in E. destruct E as [-> E]. exact E.
  - apply IH.
Qed.

Lemma finditer_run r m :
  In m (finditer s r) -> In (m_end m, m_caps m) (run s r (m_start m) []).
Proof. apply scan_run. Qed.

Lemma lang_number_pattern l : lang number_pattern l -> lang number_body l.
Proof.
  intros [H | [H | H]]; destruct H as [l1 [l2 [-> [-> H]]]];
    [left | right; left | right; right]; exact H.
Qed.

(** Every match of the pattern of [extract_numbers] is the text of a
    number. *)
Lemma number_match_numeral m :
  In m (finditer s number_pattern) -> numeral (group0 s m).
Proof.
  intros H. apply finditer_run, run_sound in H.
  apply lang_numeral, lang_number_pattern, H.
Qed.

(** What a match of the pattern of [parse_number_with_suffix] looks like:
    group 1 is the text of a number, group 2 the letter after it. *)
Lemma suffix_match_shape m :
  In m (finditer s suffix_pattern) ->
  exists j a c,
    m_caps m = (2%nat, (j, S j)) :: (1%nat, (m_start m, j)) :: c /\
    m_end m = S j /\
    numeral (slice s (m_start m) j) /\
    slice s j (S j) = [a] /\ is_suffix_letter a = true.
Proof.
  intros H. apply finditer_run in H.
  set (i := m_start m) in *. unfold suffix_pattern in H.
  cbn [run] in H.
  apply in_flat_map in H. destruct H as [[i0 c0] [H0 H]].
  destruct (at_boundary s i); [| contradiction].
  destruct H0 as [[= <- <-] | []]. cbn [fst snd] in H.
  apply in_flat_map in H. destruct H as [[j1 c1] [H1 H]].
  apply in_map_iff in H1. destruct H1 as [[j c] [[= <- <-] H1]].
  cbn [fst snd] in H.
  apply in_flat_map in H. destruct H as [[j2 c2] [H2 H]].
  apply in_map_iff in H2. destruct H2 as [[j2' c2'] [[= <- <-] H2]].
  cbn [fst snd] in H.
  destruct (nth_error s j) as [a |] eqn:Ea; [| contradiction].
  destruct (is_suffix_letter a) eqn:Hsuf; [| contradiction].
  destruct H2 as [[= <- <-] | []].
  destruct (at_boundary s (S j)); [| contradiction].
  destruct H as [[= He Hc] | []].
  exists j, a, c; repeat split; auto.
  - change (In (j, c) (run s number_body i [])) in H1.
    apply lang_numeral. exact (proj2 (run_sound s _ _ _ _ _ H1)).
  - now apply slice_one.
Qed.

End FindIter.

Section Fuel.
Variable s : list ascii.

Lemma star_loop_bounded body :
  bounded_for s body -> forall fuel, bounded_for s (star_loop body fuel).
Proof.
  intros Hb fuel; induction fuel as [| fuel IH]; intros i c j c' Hin Hi;
    simpl in Hin.
  - destruct Hin as [[= <- <-] | []]. exact Hi.
  - apply in_app_or in Hin. destruct Hin as [Hin | [[= <- <-] | []]];
      [| exact Hi].
    apply in_flat_map in Hin. destruct Hin as [[j1 c1] [H1 H2]]; simpl in H2.
    destruct (i <? j1)%nat; [| contradiction].
    exact (IH _ _ _ _ H2 (Hb _ _ _ _ H1 Hi)).
Qed.

Lemma run_bounded r : bounded_for s (run s r).
Proof.
  induction r as [| p | | r1 IH1 r2 IH2 | r1 IH1 r2 IH2 | r1 IH1 | n r1 IH1];
    intros i c j c' Hin Hi; simpl in Hin.
  - destruct Hin as [[= <- <-] | []]. exact Hi.
  - destruct (nth_error s i) as [a |] eqn:Ha; [| contradiction].
    destruct (p a); [| contradiction].
    destruct Hin as [[= <- <-] | []].
    apply Nat.le_succ_l, nth_error_Some. congruence.
  - destruct (at_boundary s i); [| contradiction].
    destruct Hin as [[= <- <-] | []]. exact Hi.
  - apply in_flat_map in Hin. destruct Hin as [[j1 c1] [H1 H2]]; simpl in H2.
    exact (IH2 _ _ _ _ H2 (IH1 _ _ _ _ H1 Hi)).
  - apply in_app_or in Hin. destruct Hin as [Hin | Hin]; eauto.
  - exact (star_loop_bounded _ IH1 _ _ _ _ _ Hin Hi).
  - apply in_map_iff in Hin. destruct Hin as [[j1 c1] [[= <- <-] H1]].
    exact (IH1 _ _ _ _ H1 Hi).
Qed.

Lemma flat_map_ext_in {A B : Type} (f g : A -> list B) l :
  (forall x, In x l -> f x = g x) -> flat_map f l = flat_map g l.
Proof.
  induction l as [| x l IH]; intros H; [reflexivity |].
  cbn [flat_map]. rewrite (H x (or_introl eq_refl)), IH; [reflexivity |].
  intros y Hy. apply H. now right.
Qed.

(** The fuel of the loop of [r*] is no limit: once it covers what is left
    of the subject, more fuel gives the same matches. *)
Lemma star_loop_fuel body :
  bounded_for s body ->
  forall fuel i c,
    (i <= List.length s)%nat -> (List.length s - i <= fuel)%nat ->
    star_loop body (S fuel) i c = star_loop body fuel i c.
Proof.
  intros Hb fuel; induction fuel as [| fuel IH]; intros i c Hi Hf.
  - cbn [star_loop]. f_equal.
    rewrite (flat_map_ext_in _ (fun _ => [])).
    + induction (body i c); [reflexivity | assumption].
    + intros [j c'] Hin. cbn [fst snd].
      pose proof (Hb _ _ _ _ Hin Hi).
      destruct (Nat.ltb_spec i j); [lia | reflexivity].
  - cbn [star_loop]. f_equal. apply flat_map_ext_in.
    intros [j c'] Hin. cbn [fst snd].
    destruct (Nat.ltb_spec i j) as [Hlt | _]; [| reflexivity].
    pose proof (Hb _ _ _ _ Hin Hi).
    apply (IH j c'); lia.
Qed.

Lemma match_at_end r i adv m :
  match_at s r i adv = Some m ->
  (i <= m_end m)%nat /\ (adv = true -> m_end m <> i).
Proof.
  unfold match_at.
  destruct (filter _ (run s r i [])) as [| [j c] l] eqn:E; [discriminate |].
  intros [= <-]; cbn [m_end].
  assert (Hin : In (j, c) (filter
    (fun jc => negb (adv && Nat.eqb (fst jc) i)) (run s r i [])))
    by (rewrite E; now left).
  apply filter_In in Hin. destruct Hin as [Hin Hf]. cbn [fst] in Hf.
  split; [exact (proj1 (run_sound s r _ _ _ _ Hin)) |].
  intros ->. cbn [andb] in Hf. apply negb_true_iff, Nat.eqb_neq in Hf. exact Hf.
Qed.

Lemma scan_step fuel r pos adv :
  scan s (S fuel) r pos adv =
  if (List.length s <? pos)%nat then []
  else match match_at s r pos adv with
       | Some m => m :: scan s fuel r (m_end m) (Nat.eqb (m_end m) pos)
       | None => scan s fuel r (S pos) false
       end.
Proof. reflexivity. Qed.

(** The fuel of [finditer] is no limit either. *)
Lemma scan_fuel r : forall fuel pos adv,
  (scan_measure s pos adv <= fuel)%nat ->
  scan s (S fuel) r pos adv = scan s fuel r pos adv.
Proof.
  intros fuel; induction fuel as [| fuel IH]; intros pos adv Hm.
  - rewrite scan_step. cbn [scan].
    destruct (Nat.ltb_spec (List.length s) pos) as [_ | Hle]; [reflexivity |].
    unfold scan_measure in Hm. destruct adv; lia.
  - rewrite (scan_step (S fuel) r pos adv), (scan_step fuel r pos adv).
    destruct (Nat.ltb_spec (List.length s) pos) as [_ | Hle]; [reflexivity |].
    destruct (match_at s r pos adv) as [m |] eqn:E.
    + destruct (match_at_end _ _ _ _ E) as [Hge Hadv].
      f_equal. apply IH. unfold scan_measure in *.
      destruct (Nat.eqb_spec (m_end m) pos) as [Heq | Hne].
      * rewrite Heq. destruct adv; [now destruct Hadv | lia].
      * destruct adv; lia.
    + apply IH. unfold scan_measure in *. destruct adv; lia.
Qed.

Lemma star_fuel r i c k :
  (i <= List.length s)%nat ->
  star_loop (run s r) (List.length s + k) i c = run s (Star r) i c.
Proof.
  intros Hi. induction k as [| k IH]; [now rewrite Nat.add_0_r |].
  rewrite Nat.add_succ_r, <- IH.
  apply star_loop_fuel; [apply run_bounded | exact Hi | lia].
Qed.

Lemma finditer_fuel r k :
  scan s (2 * List.length s + 2 + k) r 0 false = finditer s r.
Proof.
  induction k as [| k IH]; [now rewrite Nat.add_0_r |].
  rewrite Nat.add_succ_r, <- IH.
  apply scan_fuel. unfold scan_measure. lia.
Qed.

End Fuel.

Section MainFacts.

Lemma suffix_letter_lookup a :
  is_suffix_letter a = true ->
  exists mult, dict_lookup suffix_multipliers [a] = Some mult /\
               In mult suffix_factors.
Proof.
  unfold is_suffix_letter; intros H.
  apply existsb_exists in H. destruct H as [x [Hx E]].
  apply Ascii.eqb_eq in E; subst x.
  simpl in Hx.
  repeat (destruct Hx as [<- | Hx];
          [eexists; split; [reflexivity | simpl; tauto] |]).
  contradiction.
Qed.

Lemma suffix_factor_float mult :
  In mult suffix_factors -> PyFloat.finite_pos (PyFloat.of_int mult).
Proof.
  simpl; intros H.
  repeat (destruct H as [<- | H]; [exact I |]). contradiction.
Qed.

Lemma suffix_tuple_spec s m :
  In m (finditer s suffix_pattern) ->
  exists t, suffix_tuple s m = Some t /\ tuple_of_match s m t /\
            PyFloat.nonneg (raw_of t) /\ In (snd t) suffix_factors.
Proof.
  intros H. destruct (suffix_match_shape s m H)
    as [j [a [c [Hc [He [Hnum [Ha Hsuf]]]]]]].
  destruct (py_float_numeral _ Hnum) as [x [Hx Hnn]].
  destruct (suffix_letter_lookup a Hsuf) as [mult [Hl Hm]].
  assert (G1 : group s m 1 = Some (slice s (m_start m) j))
    by (unfold group; now rewrite Hc).
  assert (G2 : group s m 2 = Some [a])
    by (unfold group; rewrite Hc; simpl; now rewrite Ha).
  exists (x, PyFloat.mul_int x mult, mult).
  split; [| split; [| split; [exact Hnn | exact Hm]]].
  - unfold suffix_tuple. rewrite G1; simpl. rewrite Hx; simpl.
    rewrite G2. unfold dict_get. now rewrite Hl.
  - now exists (slice s (m_start m) j), a, x, mult.
Qed.

Lemma parse_number_with_suffix_total text :
  exists ts, parse_number_with_suffix text = Some ts /\
    Forall2 (fun m t => tuple_of_match (chars text) m t /\
                        PyFloat.nonneg (raw_of t) /\ In (snd t) suffix_factors)
            (finditer (chars text) suffix_pattern) ts.
Proof.
  unfold parse_number_with_suffix. apply mapM_total.
  intros m Hm. destruct (suffix_tuple_spec _ m Hm) as [t [H1 H2]]. eauto.
Qed.

Lemma extract_numbers_total text :
  exists ns, extract_numbers text = Some ns /\
    Forall2 (fun g num => py_float (replace_commas g) = Some num /\
                          PyFloat.nonneg num)
            (findall (chars text) number_pattern) ns.
Proof.
  unfold extract_numbers. apply mapM_total.
  intros g Hg. unfold findall in Hg. apply in_map_iff in Hg.
  destruct Hg as [m [<- Hm]].
  destruct (py_float_numeral _ (number_match_numeral _ m Hm)) as [x [Hx Hnn]].
  eauto.
Qed.

Lemma Forall2_right {A B : Type} (P : A -> B -> Prop) (Q : B -> Prop) l l' :
  (forall a b, P a b -> Q b) -> Forall2 P l l' -> Forall Q l'.
Proof. intros H; induction 1; constructor; eauto. Qed.

Lemma extract_numbers_nonneg text ns :
  extract_numbers text = Some ns -> Forall PyFloat.nonneg ns.
Proof.
  intros H. destruct (extract_numbers_total text) as [ns' [E F]].
  rewrite H in E; injection E as <-.
  eapply Forall2_right; [| exact F]. now intros g num [_ Hn].
Qed.

(** The state of [find_scale_factor] only ever holds the default or a
    factor of the table. *)
Lemma find_scale_factor_in_range keywords text :
  In (find_scale_factor_in keywords text) (1 :: map snd keywords).
Proof.
  unfold find_scale_factor_in.
  set (tl := lower (chars text)).
  assert (G : forall kws st,
    In (snd st) (1 :: map snd keywords) -> incl kws keywords ->
    In (snd (fold_left
       (fun st wf => fold_left (scale_step tl (snd wf)) (keyword_forms (fst wf)) st)
       kws st)) (1 :: map snd keywords)).
  { induction kws as [| [w f] kws IH]; intros st Hst Hincl; [exact Hst |].
    cbn [fold_left]. apply IH; [| intros x Hx; apply Hincl; now right].
    assert (Hf : In f (1 :: map snd keywords)).
    { right. apply in_map_iff. exists (w, f); split; [reflexivity |].
      apply Hincl; now left. }
    cbn [keyword_forms fold_left fst snd]. unfold scale_step.
    repeat match goal with |- context [if ?b then _ else _] => destruct b end;
      assumption. }
  apply G; [now left | apply incl_refl].
Qed.

Lemma find_scale_factor_range text :
  In (find_scale_factor text) [1; 1000; 1000000; 1000000000].
Proof.
  pose proof (find_scale_factor_in_range SCALE_KEYWORDS text) as H.
  unfold find_scale_factor. simpl in H |- *. tauto.
Qed.

Lemma scale_factor_float f :
  In f [1; 1000; 1000000; 1000000000] -> PyFloat.finite_pos (PyFloat.of_int f).
Proof.
  simpl; intros H.
  repeat (destruct H as [<- | H]; [exact I |]). contradiction.
Qed.

Lemma set_mem_app x l1 l2 : set_mem x (l1 ++ l2) = set_mem x l1 || set_mem x l2.
Proof. apply existsb_app. Qed.

Lemma set_mem_rev x l : set_mem x (rev l) = set_mem x l.
Proof.
  induction l as [| y l IH]; [reflexivity |].
  simpl rev. rewrite set_mem_app, IH. simpl. now rewrite orb_false_r, orb_comm.
Qed.

Lemma add_suffix_numbers_eq i sn tv :
  add_suffix_numbers i sn tv =
  (tv ++ map (suffix_entry i) sn, rev (map raw_of sn)).
Proof.
  unfold add_suffix_numbers.
  rewrite <- (app_nil_r (rev (map raw_of sn))).
  generalize (@nil PyFloat.float) as sv. revert tv.
  induction sn as [| t sn IH]; intros tv sv; cbn [fold_left map rev].
  - now rewrite app_nil_r.
  - rewrite IH. cbn [fst snd]. unfold set_add.
    now rewrite <- !app_assoc.
Qed.

Lemma add_plain_numbers_eq i ns sf sv tv :
  add_plain_numbers i ns sf sv tv =
  tv ++ map (plain_entry i sf) (filter (fun num => negb (set_mem num sv)) ns).
Proof.
  unfold add_plain_numbers. revert tv.
  induction ns as [| num ns IH]; intros tv; cbn [fold_left filter map].
  - now rewrite app_nil_r.
  - rewrite IH. destruct (set_mem num sv); cbn [negb map]; [reflexivity |].
    now rewrite <- app_assoc.
Qed.

Lemma filter_ext_set sv sv' (ns : list PyFloat.float) :
  (forall x, set_mem x sv = set_mem x sv') ->
  filter (fun num => negb (set_mem num sv)) ns =
  filter (fun num => negb (set_mem num sv')) ns.
Proof. intros H; apply filter_ext; intros x; now rewrite H. Qed.

Lemma scaled_page_eq i text tv :
  scaled_page i text tv = (es <- page_entries i text ;; Some (tv ++ es)).
Proof.
  unfold scaled_page, page_entries.
  destruct (parse_number_with_suffix text) as [sn |]; [| reflexivity].
  cbn [bind]. rewrite add_suffix_numbers_eq.
  destruct (extract_numbers text) as [ns |]; [| reflexivity].
  cbn [bind]. rewrite add_plain_numbers_eq, <- app_assoc.
  rewrite (filter_ext_set (rev (map raw_of sn)) (map raw_of sn));
    [reflexivity | intros x; apply set_mem_rev].
Qed.

Lemma page_entries_total i text : exists es, page_entries i text = Some es.
Proof.
  unfold page_entries.
  destruct (parse_number_with_suffix_total text) as [ts [-> _]].
  destruct (extract_numbers_total text) as [ns [-> _]].
  cbn [bind]. eauto.
Qed.

End MainFacts.

Section Documents.

Lemma page_text_cons_skip p pdf k text :
  no_text p = true ->
  page_text (p :: pdf) k text <-> exists k', k = S k' /\ page_text pdf k' text.
Proof.
  intros Hp; unfold page_text; split.
  - intros [H1 H2]. destruct k as [| k']; simpl in H1.
    + injection H1 as ->. congruence.
    + eauto.
  - intros [k' [-> H]]. exact H.
Qed.

Lemma page_text_cons p pdf k text :
  page_text (p :: pdf) k text <->
  (k = O /\ p = Some text /\ no_text p = false) \/
  exists k', k = S k' /\ page_text pdf k' text.
Proof.
  unfold page_text; split.
  - intros [H1 H2]. destruct k as [| k']; simpl in H1.
    + injection H1 as ->. now left.
    + right; eauto.
  - intros [[-> [-> H]] | [k' [-> H]]]; [now split | exact H].
Qed.

Lemma scaled_pages_spec pages : forall i tv,
  exists es, scaled_pages i pages tv = Some (tv ++ es) /\
    forall e, In e es <->
      exists k text es_k, page_text pages k text /\
        page_entries (i + k) text = Some es_k /\ In e es_k.
Proof.
  induction pages as [| p pages IH]; intros i tv.
  - exists []; split; [simpl; now rewrite app_nil_r |].
    intros e; split; [contradiction |].
    intros [k [text [es_k [[H _] _]]]]. destruct k; discriminate.
  - assert (Hskip : no_text p = true ->
      exists es, scaled_pages (S i) pages tv = Some (tv ++ es) /\
        forall e, In e es <->
          exists k text es_k, page_text (p :: pages) k text /\
            page_entries (i + k) text = Some es_k /\ In e es_k).
    { intros Hp. destruct (IH (S i) tv) as [es [E Hes]].
      exists es; split; [exact E |].
      intros e; rewrite Hes; split.
      - intros [k [text [es_k [H1 [H2 H3]]]]].
        exists (S k), text, es_k; split; [| split; [| exact H3]].
        + apply page_text_cons_skip; eauto.
        + now rewrite Nat.add_succ_r.
      - intros [k [text [es_k [H1 [H2 H3]]]]].
        apply page_text_cons_skip in H1; [| exact Hp].
        destruct H1 as [k' [-> H1]].
        exists k', text, es_k; split; [exact H1 | split; [| exact H3]].
        now rewrite Nat.add_succ_r in H2. }
    destruct p as [[| a t] |]; [now apply Hskip | | now apply Hskip].
    cbn [scaled_pages]. set (text := String a t).
    rewrite scaled_page_eq.
    destruct (page_entries_total i text) as [es0 E0]. rewrite E0; cbn [bind].
    destruct (IH (S i) (tv ++ es0)) as [es [E Hes]].
    exists (es0 ++ es); split; [now rewrite app_assoc |].
    intros e; rewrite in_app_iff, Hes; split.
    + intros [H0 | [k [txt [es_k [H1 [H2 H3]]]]]].
      * exists O, text, es0; split; [| split; [| exact H0]].
        -- apply page_text_cons; left; auto.
        -- now rewrite Nat.add_0_r.
      * exists (S k), txt, es_k; split; [| split; [| exact H3]].
        -- apply page_text_cons; right; eauto.
        -- now rewrite Nat.add_succ_r.
    + intros [k [txt [es_k [H1 [H2 H3]]]]].
      apply page_text_cons in H1.
      destruct H1 as [[-> [[= <-] _]] | [k' [-> H1]]].
      * left. rewrite Nat.add_0_r, E0 in H2. now injection H2 as <-.
      * right. exists k', txt, es_k; split; [exact H1 | split; [| exact H3]].
        now rewrite Nat.add_succ_r in H2.
Qed.

Lemma fold_append {A B : Type} (f : B -> A) (l : list B) (acc : list A) :
  fold_left (fun rv x => rv ++ [f x]) l acc = acc ++ map f l.
Proof.
  revert acc; induction l as [| x l IH]; intros acc; cbn [fold_left map].
  - now rewrite app_nil_r.
  - now rewrite IH, <- app_assoc.
Qed.

Lemma raw_entries_total i text : exists es, raw_entries i text = Some es.
Proof.
  unfold raw_entries. destruct (extract_numbers_total text) as [ns [-> _]].
  cbn [bind]; eauto.
Qed.

Lemma raw_pages_spec pages : forall i rv,
  exists es, raw_pages i pages rv = Some (rv ++ es) /\
    forall e, In e es <->
      exists k text es_k, page_text pages k text /\
        raw_entries (i + k) text = Some es_k /\ In e es_k.
Proof.
  induction pages as [| p pages IH]; intros i rv.
  - exists []; split; [simpl; now rewrite app_nil_r |].
    intros e; split; [contradiction |].
    intros [k [text [es_k [[H _] _]]]]. destruct k; discriminate.
  - assert (Hskip : no_text p = true ->
      exists es, raw_pages (S i) pages rv = Some (rv ++ es) /\
        forall e, In e es <->
          exists k text es_k, page_text (p :: pages) k text /\
            raw_entries (i + k) text = Some es_k /\ In e es_k).
    { intros Hp. destruct (IH (S i) rv) as [es [E Hes]].
      exists es; split; [exact E |].
      intros e; rewrite Hes; split.
      - intros [k [text [es_k [H1 [H2 H3]]]]].
        exists (S k), text, es_k; split; [| split; [| exact H3]].
        + apply page_text_cons_skip; eauto.
        + now rewrite Nat.add_succ_r.
      - intros [k [text [es_k [H1 [H2 H3]]]]].
        apply page_text_cons_skip in H1; [| exact Hp].
        destruct H1 as [k' [-> H1]].
        exists k', text, es_k; split; [exact H1 | split; [| exact H3]].
        now rewrite Nat.add_succ_r in H2. }
    destruct p as [[| a t] |]; [now apply Hskip | | now apply Hskip].
    cbn [raw_pages]. set (text := String a t).
    destruct (raw_entries_total i text) as [es0 E0].
    unfold raw_entries in E0.
    destruct (extract_numbers text) as [ns |] eqn:En; [| discriminate].
    cbn [bind] in E0 |- *. injection E0 as E0.
    rewrite fold_append, E0.
    destruct (IH (S i) (rv ++ es0)) as [es [E Hes]].
    exists (es0 ++ es); split; [now rewrite app_assoc |].
    assert (E0' : raw_entries i text = Some es0)
      by (unfold raw_entries; rewrite En; cbn [bind]; now rewrite E0).
    intros e; rewrite in_app_iff, Hes; split.
    + intros [H0 | [k [txt [es_k [H1 [H2 H3]]]]]].
      * exists O, text, es0; split; [| split; [| exact H0]].
        -- apply page_text_cons; left; auto.
        -- now rewrite Nat.add_0_r.
      * exists (S k), txt, es_k; split; [| split; [| exact H3]].
        -- apply page_text_cons; right; eauto.
        -- now rewrite Nat.add_succ_r.
    + intros [k [txt [es_k [H1 [H2 H3]]]]].
      apply page_text_cons in H1.
      destruct H1 as [[-> [[= <-] _]] | [k' [-> H1]]].
      * left. rewrite Nat.add_0_r, E0' in H2. now injection H2 as <-.
      * right. exists k', txt, es_k; split; [exact H1 | split; [| exact H3]].
        now rewrite Nat.add_succ_r in H2.
Qed.

End Documents.

Section ScaleFacts.

Lemma rfind_from_spec p s : forall i,
  0 <= i ->
  (rfind_from p s i = -1 /\ forall k, ~ occurs_at p s k) \/
  (exists k, rfind_from p s i = i + Z.of_nat k /\ occurs_at p s k /\
             forall k', (k < k')%nat -> ~ occurs_at p s k').
Proof.
  induction s as [| a s IH]; intros i Hi.
  - cbn [rfind_from]. destruct (starts_with p []) eqn:E.
    + right. exists O. split; [lia |]. split.
      * split; [apply Nat.le_refl | exact E].
      * intros k' Hk' [Hle _]. simpl in Hle. lia.
    + left. split; [reflexivity |].
      intros k [Hle Hk]. simpl in Hle. assert (k = O) by lia. subst k.
      simpl in Hk. congruence.
  - cbn [rfind_from].
    destruct (IH (i + 1)) as [[E Hnone] | [k [E [Hk Hlast]]]]; [lia | |].
    + rewrite E. change (0 <=? -1) with false. cbv iota.
      destruct (starts_with p (a :: s)) eqn:E0.
      * right. exists O. split; [lia |]. split.
        -- split; [simpl; lia | exact E0].
        -- intros k' Hk' [Hle Hocc]. destruct k' as [| k']; [lia |].
           apply (Hnone k'). split; [simpl in Hle; lia | exact Hocc].
      * left. split; [reflexivity |].
        intros [| k] [Hle Hocc]; [simpl in Hocc; congruence |].
        apply (Hnone k). split; [simpl in Hle; lia | exact Hocc].
    + rewrite E. destruct (Z.leb_spec 0 (i + 1 + Z.of_nat k)); [| lia].
      right. exists (S k). split; [lia |]. split.
      * destruct Hk as [Hle Hocc]. split; [simpl; lia | exact Hocc].
      * intros [| k'] Hk' [Hle Hocc]; [lia |].
        apply (Hlast k'); [lia |]. split; [simpl in Hle; lia | exact Hocc].
Qed.

(** [rfind] is the index of the last occurrence, or [-1] when there is
    none. *)
Lemma rfind_spec s p :
  (rfind s p = -1 /\ forall k, ~ occurs_at p s k) \/
  (exists k, rfind s p = Z.of_nat k /\ occurs_at p s k /\
             forall k', (k < k')%nat -> ~ occurs_at p s k').
Proof.
  destruct (rfind_from_spec p s 0 (Z.le_refl 0)) as [H | [k [E H]]];
    [now left | right; exists k; now rewrite <- (Z.add_0_l (Z.of_nat k))].
Qed.

Lemma rfind_lower_bound s p : -1 <= rfind s p.
Proof. destruct (rfind_spec s p) as [[-> _] | [k [-> _]]]; lia. Qed.

Lemma starts_with_both p p' : forall l,
  starts_with p l = true -> starts_with p' l = true ->
  starts_with p p' || starts_with p' p = true.
Proof.
  revert p'; induction p as [| a p IH]; intros p' l H H'; [reflexivity |].
  destruct p' as [| a' p']; [apply orb_true_r |].
  destruct l as [| b l]; [discriminate |].
  cbn [starts_with] in *.
  apply andb_true_iff in H, H'. destruct H as [Ha H], H' as [Ha' H'].
  apply Ascii.eqb_eq in Ha, Ha'. subst a a'.
  rewrite !Ascii.eqb_refl. cbn [andb]. exact (IH p' l H H').
Qed.

(** Two forms whose last occurrences are at the same index have the same
    factor. *)
Lemma tie_free_same_index forms text p f p' f' :
  tie_free forms -> In (p, f) forms -> In (p', f') forms ->
  0 <= last_index text p -> last_index text p = last_index text p' ->
  f = f'.
Proof.
  intros Htf Hin Hin' Hpos Heq. unfold last_index in *.
  destruct (rfind_spec (lower (chars text)) (chars p))
    as [[E _] | [k [E [[_ Hk] _]]]]; [lia |].
  destruct (rfind_spec (lower (chars text)) (chars p'))
    as [[E' _] | [k' [E' [[_ Hk'] _]]]]; [lia |].
  assert (k' = k) by lia. subst k'.
  exact (Htf p f p' f' Hin Hin' (starts_with_both _ _ _ Hk Hk')).
Qed.

Lemma scale_forms_table : tie_free (scale_forms SCALE_KEYWORDS).
Proof.
  assert (H : forallb (fun pf => forallb (fun pf' =>
    implb (starts_with (chars (fst pf)) (chars (fst pf'))
           || starts_with (chars (fst pf')) (chars (fst pf)))
          (Z.eqb (snd pf) (snd pf')))
    (scale_forms SCALE_KEYWORDS)) (scale_forms SCALE_KEYWORDS) = true)
    by (vm_compute; reflexivity).
  intros p f p' f' Hin Hin' Hc.
  rewrite forallb_forall in H. specialize (H _ Hin).
  rewrite forallb_forall in H. specialize (H _ Hin').
  cbn [fst snd] in H. rewrite Hc in H. now apply Z.eqb_eq.
Qed.

Lemma scale_state_app text l1 l2 st :
  scale_state text (l1 ++ l2) st = scale_state text l2 (scale_state text l1 st).
Proof. apply fold_left_app. Qed.

Lemma find_scale_factor_in_forms keywords text :
  find_scale_factor_in keywords text =
  snd (scale_state text (scale_forms keywords) (-1, 1)).
Proof.
  unfold find_scale_factor_in. f_equal.
  generalize (-1, 1) as st.
  induction keywords as [| [w f] kws IH]; intros st; [reflexivity |].
  cbn [fold_left scale_forms flat_map].
  rewrite scale_state_app, <- IH. reflexivity.
Qed.

(** The state after the loop: the start state, or a later form with a
    greater index; no form has a greater index than the state. *)
Lemma scale_state_max text forms : forall st,
  let st' := scale_state text forms st in
  (st' = st \/
   exists p, In (p, snd st') forms /\ fst st' = last_index text p /\
             fst st < fst st') /\
  fst st <= fst st' /\
  forall p f, In (p, f) forms -> last_index text p <= fst st'.
Proof.
  induction forms as [| [p0 f0] forms IH]; intros st; cbn zeta.
  - split; [now left |]. split; [cbn; lia | intros ? ? []].
  - unfold scale_state in *. cbn [fold_left fst snd].
    set (st1 := scale_step (lower (chars text)) f0 st p0).
    destruct (IH st1) as [H1 [H2 H3]]. cbn zeta in H1, H2, H3.
    set (st' := fold_left _ forms st1) in *.
    assert (Hst1 : (st1 = st /\ last_index text p0 <= fst st) \/
                   (st1 = (last_index text p0, f0) /\ fst st < last_index text p0)).
    { subst st1; unfold scale_step, last_index.
      destruct (Z.ltb_spec (fst st) (rfind (lower (chars text)) (chars p0)));
        [right | left]; split; auto. }
    split; [| split].
    + destruct H1 as [E | [p [Hin [Hidx Hlt]]]].
      * destruct Hst1 as [[E1 _] | [E1 Hlt]].
        -- left; congruence.
        -- right. exists p0. rewrite E, E1; cbn [fst snd].
           split; [now left | split; [reflexivity | exact Hlt]].
      * right. exists p. split; [now right | split; [exact Hidx |]].
        destruct Hst1 as [[E1 _] | [E1 Hlt1]]; rewrite E1 in Hlt;
          cbn [fst] in Hlt; lia.
    + destruct Hst1 as [[E1 _] | [E1 Hlt1]]; rewrite E1 in H2;
        cbn [fst] in H2; lia.
    + intros p f [[= <- <-] | Hin]; [| now apply (H3 p f)].
      destruct Hst1 as [[E1 Hle] | [E1 _]]; rewrite E1 in H2;
        cbn [fst] in H2; lia.
Qed.

(** [find_scale_factor] over any table without ties. *)
Lemma find_scale_factor_in_spec keywords text :
  tie_free (scale_forms keywords) ->
  ((forall p f, In (p, f) (scale_forms keywords) -> last_index text p = -1) ->
   find_scale_factor_in keywords text = 1) /\
  (forall p f, In (p, f) (scale_forms keywords) ->
     0 <= last_index text p ->
     (forall p' f', In (p', f') (scale_forms keywords) ->
                    last_index text p' <= last_index text p) ->
     find_scale_factor_in keywords text = f).
Proof.
  intros Htf. rewrite find_scale_factor_in_forms.
  destruct (scale_state_max text (scale_forms keywords) (-1, 1))
    as [H1 [H2 H3]]. cbn zeta in H1, H2, H3.
  set (st' := scale_state text (scale_forms keywords) (-1, 1)) in *.
  cbn [fst] in H1, H2. split.
  - intros Hnone. destruct H1 as [-> | [p [Hin [Hidx Hlt]]]]; [reflexivity |].
    rewrite (Hnone _ _ Hin) in Hidx. lia.
  - intros p f Hin Hpos Hmax.
    destruct H1 as [E | [p' [Hin' [Hidx _]]]].
    + specialize (H3 p f Hin). rewrite E in H3; cbn [fst] in H3. lia.
    + specialize (H3 p f Hin). specialize (Hmax _ _ Hin').
      symmetry. apply (tie_free_same_index _ text p f p' (snd st') Htf Hin Hin');
        [exact Hpos | lia].
Qed.

End ScaleFacts.

Section Final.

Lemma nonneg_ge_zero x : PyFloat.nonneg x -> ge_zero x.
Proof. destruct x as [[] | [] | | [] m e]; simpl; intros H; try contradiction; reflexivity. Qed.

Lemma exists_max_form text (forms : list (string * Z)) :
  (forall p f, In (p, f) forms -> last_index text p = -1) \/
  (exists p f, In (p, f) forms /\ 0 <= last_index text p /\
     forall p' f', In (p', f') forms -> last_index text p' <= last_index text p).
Proof.
  induction forms as [| [p0 f0] forms IH]; [left; intros ? ? [] |].
  pose proof (rfind_lower_bound (lower (chars text)) (chars p0)) as Hlb.
  fold (last_index text p0) in Hlb.
  destruct IH as [Hnone | [p [f [Hin [Hpos Hmax]]]]].
  - destruct (Z.eq_dec (last_index text p0) (-1)) as [E | NE].
    + left. intros p f [[= <- <-] | Hin]; [exact E | now apply (Hnone p f)].
    + right. exists p0, f0. split; [now left |]. split; [lia |].
      intros p' f' [[= <- <-] | Hin]; [lia |].
      rewrite (Hnone _ _ Hin). lia.
  - destruct (Z_lt_le_dec (last_index text p) (last_index text p0)) as [Hlt | Hle].
    + right. exists p0, f0. split; [now left |]. split; [lia |].
      intros p' f' [[= <- <-] | Hin']; [lia |].
      specialize (Hmax _ _ Hin'). lia.
    + right. exists p, f. split; [now right |]. split; [exact Hpos |].
      intros p' f' [[= <- <-] | Hin']; [exact Hle | now apply (Hmax p' f')].
Qed.

Lemma scale_forms_perm kw kw' :
  Permutation kw kw' -> Permutation (scale_forms kw) (scale_forms kw').
Proof. apply Permutation_flat_map. Qed.

(** The order in which the table is visited does not matter. *)
Lemma find_scale_factor_in_perm kw kw' text :
  tie_free (scale_forms kw) -> Permutation kw kw' ->
  find_scale_factor_in kw' text = find_scale_factor_in kw text.
Proof.
  intros Htf Hp. pose proof (scale_forms_perm _ _ Hp) as Hfp.
  assert (Htf' : tie_free (scale_forms kw')).
  { intros p f p' f' Hin Hin'. apply Htf;
      eapply Permutation_in; try eassumption; now apply Permutation_sym. }
  destruct (find_scale_factor_in_spec kw text Htf) as [N1 M1].
  destruct (find_scale_factor_in_spec kw' text Htf') as [N2 M2].
  destruct (exists_max_form text (scale_forms kw))
    as [Hnone | [p [f [Hin [Hpos Hmax]]]]].
  - rewrite (N1 Hnone). apply N2.
    intros p f Hin. apply (Hnone p f).
    eapply Permutation_in; [apply Permutation_sym; exact Hfp | exact Hin].
  - rewrite (M1 p f Hin Hpos Hmax). apply (M2 p f); [| exact Hpos |].
    + eapply Permutation_in; eassumption.
    + intros p' f' Hin'. apply (Hmax p' f').
      eapply Permutation_in; [apply Permutation_sym; exact Hfp | exact Hin'].
Qed.

Lemma set_mem_perm x l l' : Permutation l l' -> set_mem x l = set_mem x l'.
Proof.
  induction 1 as [| y l l' _ IH | y z l | l l' l'' _ IH1 _ IH2]; simpl.
  - reflexivity.
  - now rewrite IH.
  - now rewrite !orb_assoc, (orb_comm (PyFloat.eqb x y)).
  - congruence.
Qed.

Lemma Forall2_in_right {A B : Type} (P : A -> B -> Prop) l l' b :
  Forall2 P l l' -> In b l' -> exists a, In a l /\ P a b.
Proof.
  induction 1 as [| a b' l l' Hab _ IH]; intros Hin; [contradiction |].
  destruct Hin as [<- | Hin].
  - exists a; split; [now left | exact Hab].
  - destruct (IH Hin) as [a' [H1 H2]]. exists a'; split; [now right | exact H2].
Qed.

Lemma mul_int_nonneg x n :
  PyFloat.nonneg x -> PyFloat.finite_pos (PyFloat.of_int n) ->
  PyFloat.nonneg (PyFloat.mul_int x n).
Proof. apply mul_nonneg. Qed.

(** What every entry of a page is. *)
Lemma page_entries_spec i text es e :
  page_entries i text = Some es -> In e es ->
  page_number e = Z.of_nat i + 1 /\
  scaled_value e = PyFloat.mul_int (raw_value e) (multiplier e) /\
  (suffix_detected text e \/ contextual text e) /\
  PyFloat.nonneg (raw_value e) /\ PyFloat.nonneg (scaled_value e).
Proof.
  unfold page_entries.
  destruct (parse_number_with_suffix_total text) as [ts [Ets Hts]].
  destruct (extract_numbers_total text) as [ns [Ens Hns]].
  rewrite Ets, Ens; cbn [bind]. intros [= <-] Hin.
  apply in_app_or in Hin. destruct Hin as [Hin | Hin].
  - apply in_map_iff in Hin. destruct Hin as [t [<- Ht]].
    destruct (Forall2_in_right _ _ _ _ Hts Ht) as [m [Hm [Htm [Hnn Hf]]]].
    pose proof Htm as [g1 [a [raw_num [mult [_ [_ [_ [_ [_ ->]]]]]]]]].
    cbn [suffix_entry page_number scaled_value raw_value multiplier raw_of fst snd] in *.
    repeat split; auto.
    + left. exists m, (raw_num, PyFloat.mul_int raw_num mult, mult).
      repeat split; auto.
    + apply mul_int_nonneg; [exact Hnn | now apply suffix_factor_float].
  - apply in_map_iff in Hin. destruct Hin as [num [<- Hnum]].
    apply filter_In in Hnum. destruct Hnum as [Hnum Hmem].
    apply negb_true_iff in Hmem.
    cbn [plain_entry page_number scaled_value raw_value multiplier].
    assert (Hnn : PyFloat.nonneg num).
    { pose proof (extract_numbers_nonneg _ _ Ens) as F.
      rewrite Forall_forall in F. now apply F. }
    repeat split; auto.
    + right. split; [reflexivity |]. exists ns, ts; auto.
    + apply mul_int_nonneg; [exact Hnn |].
      apply scale_factor_float, find_scale_factor_range.
Qed.

(** What every entry of [top_values] is, after the loop over the pages. *)
Lemma top_values_spec pdf :
  exists top_values, scaled_pages 0 pdf [] = Some top_values /\
    forall e, In e top_values ->
      exists k text, page_text pdf k text /\
        page_number e = Z.of_nat k + 1 /\
        scaled_value e = PyFloat.mul_int (raw_value e) (multiplier e) /\
        (suffix_detected text e \/ contextual text e) /\
        PyFloat.nonneg (raw_value e) /\ PyFloat.nonneg (scaled_value e).
Proof.
  destruct (scaled_pages_spec pdf 0 []) as [es [E Hes]].
  exists es; split; [exact E |].
  intros e He. apply Hes in He. destruct He as [k [text [es_k [H1 [H2 H3]]]]].
  exists k, text. split; [exact H1 |].
  exact (page_entries_spec _ _ _ _ H2 H3).
Qed.

Lemma raw_values_spec pdf :
  exists raw_values, raw_pages 0 pdf [] = Some raw_values /\
    forall e, In e raw_values ->
      exists k text ns, page_text pdf k text /\
        snd e = Z.of_nat k + 1 /\
        extract_numbers text = Some ns /\ In (fst e) ns /\
        PyFloat.nonneg (fst e).
Proof.
  destruct (raw_pages_spec pdf 0 []) as [es [E Hes]].
  exists es; split; [exact E |].
  intros e He. apply Hes in He. destruct He as [k [text [es_k [H1 [H2 H3]]]]].
  unfold raw_entries in H2.
  destruct (extract_numbers text) as [ns |] eqn:En; [| discriminate].
  cbn [bind] in H2. injection H2 as <-.
  apply in_map_iff in H3. destruct H3 as [num [<- Hnum]].
  exists k, text, ns. cbn [fst snd].
  split; [exact H1 |]. split; [reflexivity |]. split; [exact En |].
  split; [exact Hnum |].
  pose proof (extract_numbers_nonneg _ _ En) as F.
  rewrite Forall_forall in F. now apply F.
Qed.

End Final.

Section Tokenless.

Lemma page_entries_no_token i text :
  no_numeric_token text -> page_entries i text = Some [].
Proof.
  intros [H1 H2]. unfold page_entries, parse_number_with_suffix,
    extract_numbers, findall.
  now rewrite H1, H2.
Qed.

Lemma raw_entries_no_token i text :
  no_numeric_token text -> raw_entries i text = Some [].
Proof.
  intros [H1 _]. unfold raw_entries, extract_numbers, findall.
  now rewrite H1.
Qed.

Lemma no_element_nil {A : Type} (l : list A) : (forall x, ~ In x l) -> l = [].
Proof.
  destruct l as [| x l]; [reflexivity |].
  intros H. destruct (H x). now left.
Qed.

Lemma scaled_pages_no_token pdf :
  (forall k text, page_text pdf k text -> no_numeric_token text) ->
  scaled_pages 0 pdf [] = Some [].
Proof.
  intros H. destruct (scaled_pages_spec pdf 0 []) as [es [E Hes]].
  rewrite E. f_equal. apply no_element_nil. intros e He.
  apply Hes in He. destruct He as [k [text [es_k [H1 [H2 H3]]]]].
  rewrite (page_entries_no_token _ _ (H k text H1)) in H2.
  injection H2 as <-. contradiction.
Qed.

Lemma raw_pages_no_token pdf :
  (forall k text, page_text pdf k text -> no_numeric_token text) ->
  raw_pages 0 pdf [] = Some [].
Proof.
  intros H. destruct (raw_pages_spec pdf 0 []) as [es [E Hes]].
  rewrite E. f_equal. apply no_element_nil. intros e He.
  apply Hes in He. destruct He as [k [text [es_k [H1 [H2 H3]]]]].
  rewrite (raw_entries_no_token _ _ (H k text H1)) in H2.
  injection H2 as <-. contradiction.
Qed.

Lemma scan_no_match s r :
  (forall i, run s r i [] = []) ->
  forall fuel pos adv, scan s fuel r pos adv = [].
Proof.
  intros H fuel; induction fuel as [| fuel IH]; intros pos adv; simpl;
    [reflexivity |].
  destruct (Nat.ltb _ pos); [reflexivity |].
  unfold match_at. rewrite H. simpl. apply IH.
Qed.

Lemma slice_head_in s i j a l : slice s i j = a :: l -> In a s.
Proof.
  unfold slice; intros H.
  assert (Hin : In a (firstn (j - i) (skipn i s))) by (rewrite H; now left).
  apply in_firstn_in in Hin.
  rewrite <- (firstn_skipn i s). apply in_or_app. now right.
Qed.

Lemma numeral_head l :
  numeral l -> exists a l', l = a :: l' /\ is_digit a = true.
Proof.
  intros [ip [fp [-> [[a [l' [-> [Ha _]]]] _]]]].
  exists a, (l' ++ fp). now split.
Qed.

(** A text without a digit has no numeric token. *)
Lemma digit_free_no_numeric_token text :
  digit_free text -> no_numeric_token text.
Proof.
  unfold digit_free; intros Hdf. rewrite forallb_forall in Hdf.
  assert (Hno : forall i j l, numeral l ->
                  ~ (exists l2, slice (chars text) i j = l ++ l2)).
  { intros i j l Hn [l2 E]. destruct (numeral_head _ Hn) as [a [l' [-> Ha]]].
    apply slice_head_in in E. apply Hdf in E. rewrite Ha in E. discriminate. }
  split; apply scan_no_match; intros i; apply no_element_nil; intros [j c] Hin;
    apply run_sound in Hin; destruct Hin as [_ HL].
  - apply (Hno i j (slice (chars text) i j));
      [now apply lang_numeral, lang_number_pattern |].
    exists []. now rewrite app_nil_r.
  - destruct HL as [l0 [l1 [E [-> [l2 [l3 [-> [HL _]]]]]]]].
    apply (Hno i j l2); [now apply lang_numeral |].
    exists l3. exact E.
Qed.

End Tokenless.

Section DeadAlternatives.
Variable s : list ascii.

Lemma star_loop_nonempty body fuel i c : star_loop body fuel i c <> [].
Proof.
  destruct fuel; simpl; [discriminate |].
  intros H. apply app_eq_nil in H. destruct H; discriminate.
Qed.

Lemma run_opt_nonempty r i c : run s (Opt r) i c <> [].
Proof.
  simpl. intros H. apply app_eq_nil in H. destruct H; discriminate.
Qed.

Lemma run_cat_nonempty r1 r2 i c :
  run s r1 i c <> [] -> (forall j c', run s r2 j c' <> []) ->
  run s (Cat r1 r2) i c <> [].
Proof.
  intros H1 H2. cbn [run].
  destruct (run s r1 i c) as [| [j c'] l]; [contradiction |].
  cbn [flat_map fst snd]. intros H. apply app_eq_nil in H.
  destruct H as [H _]. exact (H2 j c' H).
Qed.

(** At a digit, [\d{1,3}(?:,\d{3})*(?:\.\d+)?] has a match. *)
Lemma grouped_number_matches i a c :
  nth_error s i = Some a -> is_digit a = true ->
  run s grouped_number i c <> [].
Proof.
  intros Ha Hd. unfold grouped_number.
  apply run_cat_nonempty.
  - unfold Rep1to3. apply run_cat_nonempty; [| intros; apply run_opt_nonempty].
    unfold digit. cbn [run]. rewrite Ha, Hd. discriminate.
  - intros j c'. apply run_cat_nonempty;
      [apply star_loop_nonempty | intros; apply run_opt_nonempty].
Qed.

Lemma plus_digit_head i c j c' :
  In (j, c') (run s (Plus digit) i c) ->
  exists a, nth_error s i = Some a /\ is_digit a = true.
Proof.
  unfold Plus, digit. cbn [run]. intros H.
  destruct (nth_error s i) as [a |]; [| contradiction].
  destruct (is_digit a) eqn:E; [| contradiction]. eauto.
Qed.

(** Where the second or the third alternative of the pattern of
    [extract_numbers] matches, the first one matches too, and is taken. *)
Lemma later_alternatives_shadowed i :
  run s (Cat Boundary grouped_number) i [] = [] ->
  run s (Cat Boundary decimal_number) i [] = [] /\
  run s (Cat Boundary integer_number) i [] = [].
Proof.
  cbn [run]. destruct (at_boundary s i); [| now split].
  cbn [flat_map fst snd]. rewrite !app_nil_r. intros H.
  assert (Hno : forall a, nth_error s i = Some a -> is_digit a = false).
  { intros a Ha. destruct (is_digit a) eqn:E; [| reflexivity].
    now destruct (grouped_number_matches i a [] Ha E). }
  split; apply no_element_nil; intros [j c] Hin.
  - change (In (j, c) (run s (Cat (Plus digit) (Cat point (Plus digit))) i []))
      in Hin.
    cbn [run] in Hin. apply in_flat_map in Hin.
    destruct Hin as [[j1 c1] [H1 _]].
    change (In (j1, c1) (run s (Plus digit) i [])) in H1.
    destruct (plus_digit_head _ _ _ _ H1) as [a [Ha Hd]].
    rewrite (Hno a Ha) in Hd. discriminate.
  - change (In (j, c) (run s (Plus digit) i [])) in Hin.
    destruct (plus_digit_head _ _ _ _ Hin) as [a [Ha Hd]].
    rewrite (Hno a Ha) in Hd. discriminate.
Qed.

Lemma match_at_first_alternative i adv :
  match_at s number_pattern i adv =
  match_at s (Cat Boundary grouped_number) i adv.
Proof.
  unfold match_at, number_pattern.
  change (run s (Alt ?a ?b) i []) with (run s a i [] ++ run s b i []).
  destruct (run s (Cat Boundary grouped_number) i []) as [| [j c] l] eqn:E.
  - destruct (later_alternatives_shadowed i E) as [E2 E3].
    change (run s (Alt ?a ?b) i []) with (run s a i [] ++ run s b i []).
    now rewrite E2, E3.
  - pose proof (run_sound s (Cat Boundary grouped_number) i [] j c) as Hs.
    rewrite E in Hs.
    destruct (Hs (or_introl eq_refl)) as [Hle [l0 [l1 [El [-> HL]]]]].
    assert (Hn : numeral (slice s i j))
      by (rewrite El; apply lang_numeral; now left).
    destruct (numeral_head _ Hn) as [a [l' [El' _]]].
    assert (Hij : (i < j)%nat).
    { destruct (Nat.eq_dec i j) as [<- | NE]; [| lia].
      rewrite slice_nil in El'. discriminate. }
    cbn [app filter fst].
    replace (Nat.eqb j i) with false by (symmetry; apply Nat.eqb_neq; lia).
    rewrite andb_false_r. reflexivity.
Qed.

(** [extract_numbers] finds what the first alternative alone finds: the
    alternatives [\b\d+\.\d+] and [\b\d+] never decide a match. *)
Lemma finditer_first_alternative :
  finditer s number_pattern = finditer s (Cat Boundary grouped_number).
Proof.
  unfold finditer. generalize (2 * List.length s + 2)%nat as fuel.
  generalize 0%nat as pos. generalize false as adv.
  intros adv pos fuel; revert pos adv.
  induction fuel as [| fuel IH]; intros pos adv; [reflexivity |].
  cbn [scan]. rewrite match_at_first_alternative.
  destruct (Nat.ltb _ pos); [reflexivity |].
  destruct (match_at s (Cat Boundary grouped_number) pos adv);
    now rewrite IH.
Qed.

End DeadAlternatives.

Section PageOrder.

Lemma sorted_app {A : Type} (R : A -> A -> Prop) l1 l2 :
  StronglySorted R l1 -> StronglySorted R l2 ->
  (forall a b, In a l1 -> In b l2 -> R a b) ->
  StronglySorted R (l1 ++ l2).
Proof.
  intros H1 H2 H; induction H1 as [| x l1 H1 IH Hx]; [exact H2 |].
  cbn [app]. constructor.
  - apply IH. intros a b Ha Hb. apply H; [now right | exact Hb].
  - apply Forall_app. split; [exact Hx |].
    rewrite Forall_forall. intros b Hb. apply H; [now left | exact Hb].
Qed.

Lemma sorted_same_page i (es : list entry) :
  (forall e, In e es -> page_number e = i) ->
  StronglySorted (fun a b => page_number a <= page_number b) es.
Proof.
  induction es as [| x es IH]; intros H; constructor.
  - apply IH. intros e He. apply H. now right.
  - rewrite Forall_forall. intros b Hb.
    rewrite (H x (or_introl eq_refl)), (H b (or_intror Hb)). lia.
Qed.

(** The loop over the pages appends the entries page after page. *)
Lemma scaled_pages_page_order pages : forall i tv,
  exists es, scaled_pages i pages tv = Some (tv ++ es) /\
    StronglySorted (fun a b => page_number a <= page_number b) es /\
    Forall (fun e => Z.of_nat i + 1 <= page_number e) es.
Proof.
  induction pages as [| p pages IH]; intros i tv.
  - exists []. cbn [scaled_pages]. rewrite app_nil_r.
    split; [reflexivity | split; constructor].
  - assert (Hskip :
      exists es, scaled_pages (S i) pages tv = Some (tv ++ es) /\
        StronglySorted (fun a b => page_number a <= page_number b) es /\
        Forall (fun e => Z.of_nat i + 1 <= page_number e) es).
    { destruct (IH (S i) tv) as [es [E [Hs Hf]]].
      exists es. split; [exact E | split; [exact Hs |]].
      eapply Forall_impl; [| exact Hf]. cbv beta. intros e He. lia. }
    destruct p as [[| a t] |]; [exact Hskip | | exact Hskip].
    cbn [scaled_pages]. set (text := String a t).
    rewrite scaled_page_eq.
    destruct (page_entries_total i text) as [es0 E0]. rewrite E0; cbn [bind].
    destruct (IH (S i) (tv ++ es0)) as [es [E [Hs Hf]]].
    assert (H0 : forall e, In e es0 -> page_number e = Z.of_nat i + 1).
    { intros e He. exact (proj1 (page_entries_spec _ _ _ _ E0 He)). }
    exists (es0 ++ es). split; [now rewrite app_assoc |]. split.
    + apply sorted_app; [now apply sorted_same_page with (Z.of_nat i + 1) | exact Hs |].
      intros x y Hx Hy. rewrite (H0 x Hx).
      rewrite Forall_forall in Hf. specialize (Hf y Hy). lia.
    + apply Forall_app. split.
      * rewrite Forall_forall. intros e He. rewrite (H0 e He). lia.
      * eapply Forall_impl; [| exact Hf]. cbv beta. intros e He. lia.
Qed.

End PageOrder.
(** ** Properties of the rankings *)

(** What the raw ranking holds: numbers of [extract_numbers], as they are,
    with the number of their page. *)
Lemma raw_ranking_unscaled pdf top_n :
  exists out, find_largest_raw_numbers pdf top_n = Some out /\
    forall e, In e out ->
      exists k text ns, page_text pdf k text /\ snd e = Z.of_nat k + 1 /\
        extract_numbers text = Some ns /\ In (fst e) ns.
Proof.
  destruct (raw_values_spec pdf) as [rv [E H]].
  unfold find_largest_raw_numbers. rewrite E. cbn [bind].
  eexists; split; [reflexivity |].
  intros e He. apply slice_to_incl, sort_desc_in in He.
  destruct (H e He) as [k [text [ns [H1 [H2 [H3 [H4 _]]]]]]].
  now exists k, text, ns.
Qed.

(** C1.  The page ["(in millions)\nTotal: 134.0M\nOther: 12"], step by
    step.  [parse_number_with_suffix] finds the one match 134.0M, with the
    multiplier 10^6 of the letter; [extract_numbers] finds 134.0 and 12.0;
    the factor of the page is 10^6.  The first loop appends the entry of
    134.0M and puts 134.0 into [suffix_values]; the second loop finds 134.0
    in that set and skips it, and appends 12.0 times the factor of the page.
    So [top_values] is the entry of the match and the entry of the plain 12,
    and the ranking, asked for two entries or more, is 134,000,000 and then
    12,000,000.  That the first entry comes from the suffix and not from
    the keyword shows on the same page under "(in thousands)": the ranking
    is 134,000,000 with multiplier 10^6 and 12,000 with multiplier 10^3, and
    no 134,000.  Whatever [top_n] is, no entry is 134,000,000,000,000.  In
    general a page appends the entries of its suffixed numbers and then
    those of its plain numbers whose value is not among the raw values of
    the suffixed ones. *)
Theorem no_double_counting (top_n : Z) (Hn : 2 <= top_n) :
  find_largest_number_in_pdf [Some millions_page] top_n =
    Some [entry_of 134000000 1 134 1000000; entry_of 12000000 1 12 1000000] /\
  (parse_number_with_suffix millions_page = Some [tuple_134M] /\
   extract_numbers millions_page =
     Some [PyFloat.of_int 134; PyFloat.of_int 12] /\
   find_scale_factor millions_page = 1000000 /\
   add_suffix_numbers 0 [tuple_134M] [] =
     ([suffix_entry 0 tuple_134M], [PyFloat.of_int 134]) /\
   set_mem (PyFloat.of_int 134) [PyFloat.of_int 134] = true /\
   set_mem (PyFloat.of_int 12) [PyFloat.of_int 134] = false /\
   add_plain_numbers 0 [PyFloat.of_int 134; PyFloat.of_int 12] 1000000
       [PyFloat.of_int 134] [suffix_entry 0 tuple_134M] =
     [suffix_entry 0 tuple_134M; plain_entry 0 1000000 (PyFloat.of_int 12)] /\
   scaled_pages 0 [Some millions_page] [] =
     Some [suffix_entry 0 tuple_134M;
           plain_entry 0 1000000 (PyFloat.of_int 12)]) /\
  find_largest_number_in_pdf [Some thousands_page] top_n =
    Some [entry_of 134000000 1 134 1000000; entry_of 12000 1 12 1000] /\
  (forall n out,
     find_largest_number_in_pdf [Some millions_page] n = Some out ->
     Forall (fun e => PyFloat.eqb (scaled_value e)
                        (PyFloat.of_int 134000000000000) = false) out) /\
  (forall i text tv, exists suffix_numbers numbers,
     parse_number_with_suffix text = Some suffix_numbers /\
     extract_numbers text = Some numbers /\
     scaled_page i text tv =
       Some (tv ++ map (suffix_entry i) suffix_numbers ++
             map (plain_entry i (find_scale_factor text))
                 (filter (fun num =>
                            negb (set_mem num (map raw_of suffix_numbers)))
                         numbers))).
Proof.
  assert (E : scaled_pages 0 [Some millions_page] [] =
              Some [entry_of 134000000 1 134 1000000;
                    entry_of 12000000 1 12 1000000])
    by (vm_compute; reflexivity).
  assert (E' : scaled_pages 0 [Some thousands_page] [] =
               Some [entry_of 134000000 1 134 1000000;
                     entry_of 12000 1 12 1000])
    by (vm_compute; reflexivity).
  split; [| split; [| split; [| split]]].
  - unfold find_largest_number_in_pdf. rewrite E. cbn [bind].
    rewrite slice_to_nonneg by lia.
    replace (sort_desc scaled_value _) with
      [entry_of 134000000 1 134 1000000; entry_of 12000000 1 12 1000000]
      by (vm_compute; reflexivity).
    rewrite firstn_all2 by (simpl; lia). reflexivity.
  - repeat split; vm_compute; reflexivity.
  - unfold find_largest_number_in_pdf. rewrite E'. cbn [bind].
    rewrite slice_to_nonneg by lia.
    replace (sort_desc scaled_value _) with
      [entry_of 134000000 1 134 1000000; entry_of 12000 1 12 1000]
      by (vm_compute; reflexivity).
    rewrite firstn_all2 by (simpl; lia). reflexivity.
  - intros n out. unfold find_largest_number_in_pdf. rewrite E. cbn [bind].
    intros [= <-]. rewrite Forall_forall. intros e He.
    apply slice_to_incl in He. vm_compute in He.
    destruct He as [<- | [<- | []]]; vm_compute; reflexivity.
  - intros i text tv.
    destruct (parse_number_with_suffix_total text) as [sn [Esn _]].
    destruct (extract_numbers_total text) as [ns [Ens _]].
    exists sn, ns. split; [exact Esn | split; [exact Ens |]].
    rewrite scaled_page_eq. unfold page_entries. now rewrite Esn, Ens.
Qed.

Lemma no_double_counting_witness :
  2 <= 2 /\
  find_largest_number_in_pdf [Some millions_page] 2 =
    Some [entry_of 134000000 1 134 1000000; entry_of 12000000 1 12 1000000].
Proof.
  split; [lia |]. apply (no_double_counting 2). lia.
Defined.

(** C2.  For the one page ["500M vs 999999"] and [top_n = 1] the raw ranking
    is the single pair (999.0, 1), not 999999.0: [extract_numbers] reads 500
    and 999 there.  The ranking itself never scales: every value it returns
    is a number of [extract_numbers] for the text of its page. *)
Theorem raw_ranking_truncates_999999 :
  find_largest_raw_numbers [Some "500M vs 999999"] 1 =
    Some [(PyFloat.of_int 999, 1)] /\
  PyFloat.eqb (PyFloat.of_int 999) (PyFloat.of_int 999999) = false /\
  extract_numbers "500M vs 999999" =
    Some [PyFloat.of_int 500; PyFloat.of_int 999] /\
  (forall pdf top_n,
     exists out, find_largest_raw_numbers pdf top_n = Some out /\
       forall e, In e out ->
         exists k text ns, page_text pdf k text /\ snd e = Z.of_nat k + 1 /\
           extract_numbers text = Some ns /\ In (fst e) ns).
Proof.
  split; [vm_compute; reflexivity |].
  split; [vm_compute; reflexivity |].
  split; [vm_compute; reflexivity |].
  exact raw_ranking_unscaled.
Qed.

(** C3.  On the text ["999999"] [extract_numbers] returns the one value
    999.0, not 999999.0: the only match is ["999"].  On every text the
    pattern finds what its first alternative alone finds, so the alternative
    [\b\d+] for a bare integer never decides a match; the pattern of
    [parse_number_with_suffix], which has the same three alternatives, does
    read 999999 in ["999999M"]. *)
Theorem bare_integer_truncated :
  extract_numbers "999999" = Some [PyFloat.of_int 999] /\
  PyFloat.eqb (PyFloat.of_int 999) (PyFloat.of_int 999999) = false /\
  findall (chars "999999") number_pattern = [chars "999"] /\
  (forall text,
     finditer (chars text) number_pattern =
     finditer (chars text) (Cat Boundary grouped_number)) /\
  parse_number_with_suffix "999999M" =
    Some [(PyFloat.of_int 999999, PyFloat.of_int 999999000000, 1000000)].
Proof.
  split; [vm_compute; reflexivity |].
  split; [vm_compute; reflexivity |].
  split; [vm_compute; reflexivity |].
  split; [intros text; apply finditer_first_alternative |].
  vm_compute; reflexivity.
Qed.

(** C4.  [find_scale_factor] returns 1 when no surface form of a keyword
    occurs in the lower-cased text, and otherwise the factor of a form whose
    last occurrence has the greatest index ([last_index] is that index, or
    -1); a text with "(in thousands)" first and "(In Billions)" after it
    gives 10^9. *)
Theorem last_keyword_wins (text : string) :
  ((forall p f, In (p, f) (scale_forms SCALE_KEYWORDS) ->
                last_index text p = -1) ->
   find_scale_factor text = 1) /\
  (forall p f, In (p, f) (scale_forms SCALE_KEYWORDS) ->
     0 <= last_index text p ->
     (forall p' f', In (p', f') (scale_forms SCALE_KEYWORDS) ->
                    last_index text p' <= last_index text p) ->
     find_scale_factor text = f) /\
  (forall form,
     (last_index text form = -1 /\
      forall k, ~ occurs_at (chars form) (lower (chars text)) k) \/
     (exists k, last_index text form = Z.of_nat k /\
        occurs_at (chars form) (lower (chars text)) k /\
        forall k', (k < k')%nat ->
                   ~ occurs_at (chars form) (lower (chars text)) k')) /\
  find_scale_factor "Table 1 (in thousands); Table 2 (In Billions): 7" =
    1000000000 /\
  find_scale_factor "Count: 42" = 1.
Proof.
  destruct (find_scale_factor_in_spec SCALE_KEYWORDS text scale_forms_table)
    as [H1 H2].
  split; [exact H1 |]. split; [exact H2 |].
  split; [intros form; apply rfind_spec |].
  split; vm_compute; reflexivity.
Qed.

(** C5.  [top_n] is the number of results asked for, so [0 <= top_n].
    [find_largest_number_in_pdf] returns the first [top_n] entries of the
    stable sort of [top_values] by [scaled_value], largest first: the
    sorted list is a permutation of
    [top_values], no entry stands before one with a greater value, and the
    entries with the same value stand as in [top_values], which holds the
    pages in their order.  The result has at most [top_n] entries, and all
    of them when there are no more than [top_n]. *)
Theorem top_n_of_stable_sort (pdf : list page) (top_n : Z) (Hn : 0 <= top_n) :
  exists top_values,
    scaled_pages 0 pdf [] = Some top_values /\
    StronglySorted (fun a b => page_number a <= page_number b) top_values /\
    let sorted := sort_desc scaled_value top_values in
    Permutation top_values sorted /\
    StronglySorted (desc scaled_value) sorted /\
    (forall v, filter (same_key scaled_value v) sorted =
               filter (same_key scaled_value v) top_values) /\
    find_largest_number_in_pdf pdf top_n =
      Some (firstn (Z.to_nat top_n) sorted) /\
    Z.of_nat (List.length (firstn (Z.to_nat top_n) sorted)) <= top_n /\
    (Z.of_nat (List.length top_values) <= top_n ->
     firstn (Z.to_nat top_n) sorted = sorted).
Proof.
  destruct (top_values_spec pdf) as [tv [E H]].
  exists tv. split; [exact E |].
  split.
  { destruct (scaled_pages_page_order pdf 0 []) as [es [E' [Hs _]]].
    cbn [app] in E'. rewrite E in E'. now injection E' as ->. }
  cbn zeta.
  split; [apply sort_desc_perm |].
  split.
  { apply sort_desc_sorted. rewrite Forall_forall. intros e He.
    destruct (H e He) as [k [text [_ [_ [_ [_ [_ Hs]]]]]]]. exact Hs. }
  split; [intros v; apply sort_desc_same_key |].
  split.
  { unfold find_largest_number_in_pdf. rewrite E. cbn [bind].
    now rewrite slice_to_nonneg. }
  split.
  - rewrite length_firstn. lia.
  - intros Hle. apply firstn_all2. rewrite sort_desc_length. lia.
Qed.

Lemma top_n_of_stable_sort_witness :
  0 <= 2 /\
  exists top_values,
    scaled_pages 0 [Some "7 9"; None; Some "9 8"] [] = Some top_values /\
    find_largest_number_in_pdf [Some "7 9"; None; Some "9 8"] 2 =
      Some (firstn 2 (sort_desc scaled_value top_values)) /\
    firstn 2 (sort_desc scaled_value top_values) =
      [entry_of 9 1 9 1; entry_of 9 3 9 1].
Proof.
  split; [lia |].
  destruct (top_n_of_stable_sort [Some "7 9"; None; Some "9 8"] 2)
    as [tv [E [_ [_ [_ [_ [F _]]]]]]]; [lia |].
  exists tv. split; [exact E |]. split; [exact F |].
  assert (E' : scaled_pages 0 [Some "7 9"; None; Some "9 8"] [] =
               Some [entry_of 7 1 7 1; entry_of 9 1 9 1;
                     entry_of 9 3 9 1; entry_of 8 3 8 1])
    by (vm_compute; reflexivity).
  rewrite E' in E. injection E as <-. vm_compute. reflexivity.
Defined.

(** C6.  Every entry of the scaled ranking has
    [scaled_value = raw_value * multiplier] and comes from a page with text:
    either from a match of the suffix pattern, and then its multiplier is
    the one the table has for the letter of the match, or from a plain
    number, and then its multiplier is the factor of the page.  On the page
    ["(in thousands) 5M and 7"] the entry of 5M has the multiplier 10^6 of
    its letter, the entry of 7 the factor 10^3 of the page. *)
Theorem entries_scaled_by_own_multiplier (pdf : list page) (top_n : Z) :
  (exists out,
     find_largest_number_in_pdf pdf top_n = Some out /\
     forall e, In e out ->
       scaled_value e = PyFloat.mul_int (raw_value e) (multiplier e) /\
       exists k text,
         page_text pdf k text /\ page_number e = Z.of_nat k + 1 /\
         (suffix_detected text e \/ contextual text e)) /\
  find_largest_number_in_pdf [Some "(in thousands) 5M and 7"] 2 =
    Some [entry_of 5000000 1 5 1000000; entry_of 7000 1 7 1000].
Proof.
  split; [| vm_compute; reflexivity].
  destruct (top_values_spec pdf) as [tv [E H]].
  unfold find_largest_number_in_pdf. rewrite E. cbn [bind].
  eexists; split; [reflexivity |].
  intros e He. apply slice_to_incl, sort_desc_in in He.
  destruct (H e He) as [k [text [H1 [H2 [H3 [H4 _]]]]]].
  split; [exact H3 |]. now exists k, text.
Qed.

(** C7.  When neither pattern matches on any page that has text, both
    rankings are the empty list, and not an error; a page that gives [None]
    or the empty string adds nothing to either collection. *)
Theorem no_token_empty_rankings (pdf : list page) (top_n : Z)
    (Hpdf : forall k text, page_text pdf k text -> no_numeric_token text) :
  find_largest_number_in_pdf pdf top_n = Some [] /\
  find_largest_raw_numbers pdf top_n = Some [] /\
  (forall p rest i top_values raw_values,
     no_text p = true ->
     scaled_pages i (p :: rest) top_values = scaled_pages (S i) rest top_values /\
     raw_pages i (p :: rest) raw_values = raw_pages (S i) rest raw_values).
Proof.
  split; [| split].
  - unfold find_largest_number_in_pdf.
    rewrite (scaled_pages_no_token pdf Hpdf). cbn [bind sort_desc].
    now rewrite slice_to_nil.
  - unfold find_largest_raw_numbers.
    rewrite (raw_pages_no_token pdf Hpdf). cbn [bind sort_desc].
    now rewrite slice_to_nil.
  - intros p rest i tv rv Hp.
    destruct p as [[| a t] |]; try discriminate; split; reflexivity.
Qed.

Lemma no_token_empty_rankings_witness :
  (forall k text,
     page_text [None; Some ""; Some "no figures on this page"] k text ->
     no_numeric_token text) /\
  find_largest_number_in_pdf [None; Some ""; Some "no figures on this page"] 3
    = Some [] /\
  find_largest_raw_numbers [None; Some ""; Some "no figures on this page"] 3
    = Some [].
Proof.
  assert (H : forall k text,
    page_text [None; Some ""; Some "no figures on this page"] k text ->
    no_numeric_token text).
  { intros k text [H1 H2].
    destruct k as [| [| [| k]]]; simpl in H1; try discriminate.
    - injection H1 as <-. discriminate.
    - injection H1 as <-. split; vm_compute; reflexivity.
    - destruct k; discriminate. }
  split; [exact H |].
  destruct (no_token_empty_rankings _ 3 H) as [H1 [H2 _]]. now split.
Defined.

(** C8.  [parse_number_with_suffix] always returns, and for every match the
    group 2 is one letter of [KkMmBbTt], which the table has: the multiplier
    of the tuple is the one of that letter, one of 10^3, 10^6, 10^9 and
    10^12, and never the default 1. *)
Theorem suffix_default_unreachable (text : string) :
  exists tuples,
    parse_number_with_suffix text = Some tuples /\
    Forall2 (fun m t =>
               exists a, group (chars text) m 2 = Some [a] /\
                 is_suffix_letter a = true /\
                 dict_lookup suffix_multipliers [a] = Some (snd t))
            (finditer (chars text) suffix_pattern) tuples /\
    Forall (fun t => In (snd t) suffix_factors /\ snd t <> 1) tuples.
Proof.
  destruct (parse_number_with_suffix_total text) as [ts [E F]].
  exists ts. split; [exact E |]. split.
  - eapply Forall2_impl; [| exact F].
    intros m t [[g1 [a [raw_num [mult [_ [_ [G2 [Hs [Hl ->]]]]]]]]] _].
    now exists a.
  - eapply Forall2_right; [| exact F].
    intros m t [_ [_ Hin]]. split; [exact Hin |].
    simpl in Hin. intros E1. rewrite E1 in Hin.
    repeat (destruct Hin as [Hin | Hin]; [discriminate |]). contradiction.
Qed.

(** C9.  [extract_numbers] and [parse_number_with_suffix] return, and every
    value they return is [>= 0.0]; ["-5"] gives 5.0; every raw and scaled
    value of both rankings is [>= 0.0]. *)
Theorem values_nonnegative (pdf : list page) (top_n : Z) (text : string) :
  (exists numbers, extract_numbers text = Some numbers /\
     Forall ge_zero numbers) /\
  (exists tuples, parse_number_with_suffix text = Some tuples /\
     Forall (fun t => ge_zero (raw_of t) /\ ge_zero (snd (fst t))) tuples) /\
  extract_numbers "-5" = Some [PyFloat.of_int 5] /\
  (exists out, find_largest_number_in_pdf pdf top_n = Some out /\
     Forall (fun e => ge_zero (raw_value e) /\ ge_zero (scaled_value e)) out) /\
  (exists out, find_largest_raw_numbers pdf top_n = Some out /\
     Forall (fun e => ge_zero (fst e)) out).
Proof.
  split; [| split; [| split; [| split]]].
  - destruct (extract_numbers_total text) as [ns [E F]].
    exists ns. split; [exact E |].
    eapply Forall2_right; [| exact F].
    intros g num [_ Hn]. now apply nonneg_ge_zero.
  - destruct (parse_number_with_suffix_total text) as [ts [E F]].
    exists ts. split; [exact E |].
    eapply Forall2_right; [| exact F].
    intros m t [[g1 [a [raw_num [mult [_ [_ [_ [_ [_ ->]]]]]]]]] [Hn Hin]].
    cbn [raw_of fst snd] in *. split; apply nonneg_ge_zero; [exact Hn |].
    apply mul_int_nonneg; [exact Hn | now apply suffix_factor_float].
  - vm_compute; reflexivity.
  - destruct (top_values_spec pdf) as [tv [E H]].
    unfold find_largest_number_in_pdf. rewrite E. cbn [bind].
    eexists; split; [reflexivity |].
    rewrite Forall_forall. intros e He.
    apply slice_to_incl, sort_desc_in in He.
    destruct (H e He) as [k [txt [_ [_ [_ [_ [Hr Hs]]]]]]].
    split; now apply nonneg_ge_zero.
  - destruct (raw_values_spec pdf) as [rv [E H]].
    unfold find_largest_raw_numbers. rewrite E. cbn [bind].
    eexists; split; [reflexivity |].
    rewrite Forall_forall. intros e He.
    apply slice_to_incl, sort_desc_in in He.
    destruct (H e He) as [k [txt [ns [_ [_ [_ [_ Hr]]]]]]].
    now apply nonneg_ge_zero.
Qed.

(** ** Further properties *)

Section StableSort.
Context {A : Type}.
Variable key : A -> PyFloat.float.

Lemma eqb_refl_nonneg x : PyFloat.nonneg x -> PyFloat.eqb x x = true.
Proof.
  unfold PyFloat.eqb, SFeqb.
  destruct x as [[] | [] | | [] m e]; simpl; try contradiction; intros _;
    try reflexivity.
  rewrite Z.compare_refl. fold_compare. now rewrite Pos.compare_refl.
Qed.

Lemma leb_antisym_nonneg x y :
  PyFloat.nonneg x -> PyFloat.nonneg y ->
  PyFloat.leb x y = true -> PyFloat.leb y x = true -> PyFloat.eqb x y = true.
Proof.
  unfold PyFloat.leb, PyFloat.eqb, SFleb, SFeqb.
  destruct x as [[] | [] | | [] mx ex], y as [[] | [] | | [] my ey];
    simpl; try contradiction; intros _ _; try congruence.
  rewrite (Z.compare_antisym ex ey). destruct (ex ?= ey); simpl; try congruence.
  fold_compare. rewrite (Pos.compare_antisym mx my).
  destruct (mx ?= my)%positive; simpl; congruence.
Qed.

Lemma same_key_refl x :
  PyFloat.nonneg (key x) -> same_key key (key x) x = true.
Proof. apply eqb_refl_nonneg. Qed.

(** Two lists sorted largest key first in which the elements of every key
    stand in the same order are the same list. *)
Lemma stable_sorted_unique (l1 : list A) : forall l2,
  Forall (fun a => PyFloat.nonneg (key a)) l1 ->
  Forall (fun a => PyFloat.nonneg (key a)) l2 ->
  StronglySorted (desc key) l1 -> StronglySorted (desc key) l2 ->
  (forall v, filter (same_key key v) l1 = filter (same_key key v) l2) ->
  l1 = l2.
Proof.
  induction l1 as [| x l1 IH]; intros l2 N1 N2 S1 S2 F.
  - destruct l2 as [| y l2]; [reflexivity |].
    inversion N2 as [| ? ? Ny _]; subst.
    specialize (F (key y)). cbn [filter] in F.
    rewrite (same_key_refl _ Ny) in F. discriminate.
  - inversion N1 as [| ? ? Nx N1']; subst.
    inversion S1 as [| ? ? S1' Hx]; subst.
    assert (Fx := F (key x)). cbn [filter] in Fx.
    rewrite (same_key_refl _ Nx) in Fx.
    destruct l2 as [| y l2]; [discriminate |].
    inversion N2 as [| ? ? Ny N2']; subst.
    inversion S2 as [| ? ? S2' Hy]; subst.
    assert (Exy : x = y).
    { cbn [filter] in Fx. destruct (same_key key (key x) y) eqn:Ey;
        [now injection Fx |].
      exfalso.
      assert (Hx2 : In x l2).
      { assert (H : In x (filter (same_key key (key x)) l2))
          by (rewrite <- Fx; now left).
        now apply filter_In in H. }
      assert (Hy1 : In y l1).
      { assert (Fy := F (key y)). cbn [filter] in Fy.
        rewrite (same_key_refl _ Ny) in Fy.
        assert (H : In y (if same_key key (key y) x
                          then x :: filter (same_key key (key y)) l1
                          else filter (same_key key (key y)) l1))
          by (rewrite Fy; now left).
        destruct (same_key key (key y) x) eqn:Eyx.
        - destruct H as [<- | H]; [| now apply filter_In in H].
          rewrite (same_key_refl _ Nx) in Ey. discriminate.
        - now apply filter_In in H. }
      rewrite Forall_forall in Hx, Hy.
      pose proof (Hx y Hy1) as D1. pose proof (Hy x Hx2) as D2.
      unfold desc in D1, D2.
      unfold same_key in Ey.
      rewrite (leb_antisym_nonneg _ _ Ny Nx D1 D2) in Ey. discriminate. }
    subst y. f_equal. apply IH; try assumption.
    intros v. specialize (F v). cbn [filter] in F.
    destruct (same_key key v x); [now injection F | exact F].
Qed.

(** [sort_desc] gives the only stable arrangement, largest key first. *)
Lemma sort_desc_unique (l l' : list A) :
  Forall (fun a => PyFloat.nonneg (key a)) l ->
  stable_desc key l l' -> l' = sort_desc key l.
Proof.
  intros N [P [S F]].
  assert (N' : Forall (fun a => PyFloat.nonneg (key a)) l').
  { rewrite Forall_forall in *. intros x Hx. apply N.
    eapply Permutation_in; [apply Permutation_sym; exact P | exact Hx]. }
  apply stable_sorted_unique; try assumption.
  - rewrite Forall_forall in *. intros x Hx. apply N. now apply sort_desc_in in Hx.
  - now apply sort_desc_sorted.
  - intros v. now rewrite F, sort_desc_same_key.
Qed.

Lemma sort_desc_stable (l : list A) :
  Forall (fun a => PyFloat.nonneg (key a)) l ->
  stable_desc key l (sort_desc key l).
Proof.
  intros N. split; [apply sort_desc_perm |].
  split; [now apply sort_desc_sorted | intros v; apply sort_desc_same_key].
Qed.

Lemma sorted_split (R : A -> A -> Prop) (l : list A) :
  StronglySorted R l ->
  forall n a b, In a (firstn n l) -> In b (skipn n l) -> R a b.
Proof.
  induction 1 as [| x l S IH Hx]; intros n a b Ha Hb.
  - rewrite firstn_nil in Ha. contradiction.
  - destruct n as [| n]; [contradiction |].
    cbn [firstn skipn] in Ha, Hb. destruct Ha as [<- | Ha].
    + rewrite Forall_forall in Hx. apply Hx.
      rewrite <- (firstn_skipn n l). apply in_or_app. now right.
    + exact (IH n a b Ha Hb).
Qed.



End StableSort.

Section Rankings.

Lemma top_values_nonneg pdf top_values :
  scaled_pages 0 pdf [] = Some top_values ->
  Forall (fun e => PyFloat.nonneg (scaled_value e)) top_values.
Proof.
  intros E. destruct (top_values_spec pdf) as [tv [E' H]].
  rewrite E in E'. injection E' as <-.
  rewrite Forall_forall. intros e He.
  destruct (H e He) as [k [text [_ [_ [_ [_ [_ Hs]]]]]]]. exact Hs.
Qed.

Lemma raw_values_nonneg pdf raw_values :
  raw_pages 0 pdf [] = Some raw_values ->
  Forall (fun e => PyFloat.nonneg (fst e)) raw_values.
Proof.
  intros E. destruct (raw_values_spec pdf) as [rv [E' H]].
  rewrite E in E'. injection E' as <-.
  rewrite Forall_forall. intros e He.
  destruct (H e He) as [k [text [ns [_ [_ [_ [_ Hs]]]]]]]. exact Hs.
Qed.


End Rankings.

Section Tokens.
Variable s : list ascii.

#[local] Arguments is_digit : simpl never.

Lemma lang_rep1to3_length l :
  lang (Rep1to3 digit) l ->
  (1 <= List.length l <= 3)%nat /\ forallb is_digit l = true.
Proof.
  intros [l1 [l2 [-> [[a [-> Ha]] H2]]]].
  destruct H2 as [[m1 [m2 [-> [[b [-> Hb]] H3]]]] | ->].
  - destruct H3 as [[c [-> Hc]] | ->]; cbn [app List.length forallb];
      rewrite ?Ha, ?Hb, ?Hc; split; try reflexivity; lia.
  - cbn [app List.length forallb]. rewrite Ha. split; [lia | reflexivity].
Qed.

Lemma lang_comma_groups_shape l :
  lang (Star (Cat comma (Rep3 digit))) l -> comma_groups l.
Proof.
  change (star_of (lang (Cat comma (Rep3 digit))) l -> comma_groups l).
  induction 1 as [| l1 l2 H1 _ IH]; [constructor |].
  destruct H1 as [m1 [m2 [-> [Hm1 H3]]]].
  apply lang_comma in Hm1; subst m1.
  destruct H3 as [n1 [n2 [-> [[b [-> Hb]] H3]]]].
  destruct H3 as [k1 [k2 [-> [[c [-> Hc]] [d [-> Hd]]]]]].
  cbn [app]. now constructor.
Qed.

Lemma lang_grouped_shape l : lang grouped_number l -> grouped_shape l.
Proof.
  intros [l1 [l2 [-> [H1 [l3 [l4 [-> [H3 H4]]]]]]]].
  destruct (lang_rep1to3_length _ H1) as [Hlen Hd].
  exists l1, l3, l4. split; [reflexivity |].
  split; [exact Hlen |]. split; [exact Hd |].
  split; [now apply lang_comma_groups_shape | now apply lang_fraction].
Qed.

Lemma slice_head_nth i j a l : slice s i j = a :: l -> nth_error s i = Some a.
Proof.
  unfold slice. revert i j. induction s as [| x s' IH]; intros i j H.
  - rewrite skipn_nil, firstn_nil in H. discriminate.
  - destruct i as [| i].
    + cbn [skipn] in H. destruct (j - 0)%nat; [discriminate |].
      cbn [firstn] in H. now injection H as -> _.
    + cbn [skipn nth_error] in *. apply (IH i (j - 1)%nat).
      now replace (j - 1 - i)%nat with (j - S i)%nat by lia.
Qed.

Lemma is_digit_is_word a : is_digit a = true -> is_word a = true.
Proof. intros H. unfold is_word. now rewrite H. Qed.

(** [\b] before a digit: no word character stands before the digit. *)
Lemma boundary_at_digit i a :
  nth_error s i = Some a -> is_digit a = true ->
  at_boundary s i = negb (word_before s i).
Proof.
  intros Ha Hd. unfold at_boundary, word_at.
  rewrite Ha, (is_digit_is_word _ Hd). now destruct (word_before s i).
Qed.

Lemma numeral_nonempty l : numeral l -> l <> [].
Proof. intros H. destruct (numeral_head _ H) as [a [l' [-> _]]]. discriminate. Qed.

Lemma slice_nonempty_lt i j : slice s i j <> [] -> (i < j)%nat.
Proof.
  intros H. destruct (Nat.lt_ge_cases i j) as [Hlt | Hge]; [exact Hlt |].
  exfalso. apply H. unfold slice.
  now replace (j - i)%nat with 0%nat by lia.
Qed.

(** What a token of [extract_numbers] is and where it starts. *)
Lemma number_token m :
  In m (finditer s number_pattern) ->
  grouped_shape (group0 s m) /\
  word_before s (m_start m) = false /\
  span_inside s m.
Proof.
  intros H. rewrite finditer_first_alternative in H.
  pose proof (finditer_run s _ m H) as Hr.
  destruct (run_sound s _ _ _ _ _ Hr) as [Hle [l0 [l1 [E [-> HL]]]]].
  cbn [app] in E.
  assert (Hshape : grouped_shape (group0 s m))
    by (unfold group0; rewrite E; now apply lang_grouped_shape).
  assert (Hnum : numeral (slice s (m_start m) (m_end m)))
    by (rewrite E; apply lang_numeral; now left).
  destruct (numeral_head _ Hnum) as [a [l' [El Ha]]].
  pose proof (slice_head_nth _ _ _ _ El) as Hnth.
  split; [exact Hshape |]. split.
  - cbn [run] in Hr. apply in_flat_map in Hr. destruct Hr as [jc [H0 _]].
    destruct (at_boundary s (m_start m)) eqn:Eb; [| contradiction].
    rewrite (boundary_at_digit _ _ Hnth Ha) in Eb.
    now apply negb_true_iff in Eb.
  - split.
    + apply slice_nonempty_lt. rewrite El. discriminate.
    + apply (run_bounded s _ _ _ _ _ Hr).
      apply Nat.lt_le_incl, nth_error_Some. congruence.
Qed.

(** Where a match of the pattern of [parse_number_with_suffix] stands: no
    word character before the number, none after the letter. *)
Lemma suffix_token m :
  In m (finditer s suffix_pattern) ->
  word_before s (m_start m) = false /\
  word_at s (m_end m) = false /\
  span_inside s m.
Proof.
  intros H. pose proof (finditer_run s _ m H) as Hr.
  destruct (suffix_match_shape s m H) as [j [a [c [Hc [He [Hnum [Ha Hsuf]]]]]]].
  destruct (numeral_head _ Hnum) as [d [l' [El Hd]]].
  pose proof (slice_head_nth _ _ _ _ El) as Hnth.
  pose proof (slice_head_nth _ _ _ _ Ha) as Hnj.
  assert (Hw : is_word a = true).
  { unfold is_suffix_letter in Hsuf. apply existsb_exists in Hsuf.
    destruct Hsuf as [x [Hx Ex]]. apply Ascii.eqb_eq in Ex. subst x.
    simpl in Hx.
    repeat (destruct Hx as [<- | Hx]; [reflexivity |]). contradiction. }
  unfold suffix_pattern in Hr. cbn [run] in Hr.
  apply in_flat_map in Hr. destruct Hr as [[i0 c0] [H0 Hr]].
  destruct (at_boundary s (m_start m)) eqn:Eb; [| contradiction].
  destruct H0 as [[= <- <-] | []]. cbn [fst snd] in Hr.
  apply in_flat_map in Hr. destruct Hr as [[j1 c1] [H1 Hr]].
  cbn [fst snd] in Hr.
  apply in_flat_map in Hr. destruct Hr as [[j2 c2] [H2 Hr]].
  cbn [fst snd] in Hr.
  destruct (at_boundary s j2) eqn:Eb2; [| contradiction].
  destruct Hr as [[= Hj2 _] | []]. subst j2.
  rewrite (boundary_at_digit _ _ Hnth Hd) in Eb. apply negb_true_iff in Eb.
  split; [exact Eb |]. split.
  - rewrite He in Eb2 |- *. unfold at_boundary in Eb2.
    cbn [word_before] in Eb2. unfold word_at at 1 in Eb2.
    rewrite Hnj, Hw in Eb2. now destruct (word_at s (S j)).
  - split.
    + rewrite He.
      assert (m_start m < j)%nat; [| lia].
      apply slice_nonempty_lt. rewrite El. discriminate.
    + rewrite He. apply nth_error_Some. congruence.
Qed.

Lemma scan_ordered r fuel : forall pos adv,
  Forall (fun m => (pos <= m_start m)%nat) (scan s fuel r pos adv) /\
  StronglySorted before (scan s fuel r pos adv).
Proof.
  induction fuel as [| fuel IH]; intros pos adv; cbn [scan];
    [split; constructor |].
  destruct (Nat.ltb _ pos); [split; constructor |].
  destruct (match_at s r pos adv) as [m |] eqn:E.
  - destruct (match_at_run s _ _ _ _ E) as [Hs _].
    destruct (match_at_end s _ _ _ _ E) as [Hge _].
    destruct (IH (m_end m) (Nat.eqb (m_end m) pos)) as [F S].
    split.
    + constructor; [lia |].
      eapply Forall_impl; [| exact F]. cbv beta. intros m' Hm'. lia.
    + constructor; [exact S |].
      eapply Forall_impl; [| exact F]. intros m' Hm'. exact Hm'.
  - destruct (IH (S pos) false) as [F S]. split; [| exact S].
    eapply Forall_impl; [| exact F]. cbv beta. intros m' Hm'. lia.
Qed.

Lemma finditer_ordered r : StronglySorted before (finditer s r).
Proof. apply scan_ordered. Qed.

Lemma filter_all {X : Type} (f : X -> bool) (l : list X) :
  (forall x, f x = true) -> filter f l = l.
Proof.
  intros H. induction l as [| x l IH]; cbn [filter]; [reflexivity |].
  now rewrite H, IH.
Qed.

(** When the scan finds nothing, no position has a match. *)
Lemma scan_nil_inv r fuel : forall pos,
  scan s fuel r pos false = [] ->
  forall i, (pos <= i)%nat -> (i <= List.length s)%nat -> (i - pos < fuel)%nat ->
  run s r i [] = [].
Proof.
  induction fuel as [| fuel IH]; intros pos H i Hpi Hil Hf; [lia |].
  rewrite scan_step in H.
  destruct (Nat.ltb_spec (List.length s) pos) as [Hlt | _]; [lia |].
  destruct (match_at s r pos false) as [m |] eqn:E; [discriminate |].
  destruct (Nat.eq_dec i pos) as [-> | Hne].
  - unfold match_at in E. rewrite filter_all in E by reflexivity.
    destruct (run s r pos []) as [| [j c] l]; [reflexivity | discriminate].
  - apply (IH (S pos) H i); lia.
Qed.

Lemma finditer_nil_inv r i :
  finditer s r = [] -> (i <= List.length s)%nat -> run s r i [] = [].
Proof.
  intros H Hi. apply (scan_nil_inv r _ 0%nat H i); lia.
Qed.

(** [extract_numbers] finds no token exactly when every digit of the text
    stands after a word character. *)
Lemma no_token_iff :
  finditer s number_pattern = [] <->
  (forall i a, nth_error s i = Some a -> is_digit a = true ->
               word_before s i = true).
Proof.
  split.
  - intros H i a Ha Hd.
    destruct (word_before s i) eqn:Ew; [reflexivity | exfalso].
    assert (Hi : (i <= List.length s)%nat)
      by (apply Nat.lt_le_incl, nth_error_Some; congruence).
    rewrite finditer_first_alternative in H.
    pose proof (finditer_nil_inv _ i H Hi) as Hr.
    cbn [run] in Hr. rewrite (boundary_at_digit _ _ Ha Hd), Ew in Hr.
    cbn [negb flat_map fst snd] in Hr. rewrite app_nil_r in Hr.
    exact (grouped_number_matches s i a [] Ha Hd Hr).
  - intros H. apply scan_no_match. intros i.
    apply no_element_nil. intros [j c] Hin.
    pose proof Hin as Hin'.
    apply run_sound in Hin. destruct Hin as [_ HL].
    apply lang_number_pattern, lang_numeral, numeral_head in HL.
    destruct HL as [a [l' [El Ha]]].
    pose proof (slice_head_nth _ _ _ _ El) as Hnth.
    pose proof (H i a Hnth Ha) as Hw.
    assert (Hb : at_boundary s i = false)
      by (rewrite (boundary_at_digit _ _ Hnth Ha), Hw; reflexivity).
    unfold number_pattern in Hin'. cbn [run] in Hin'. rewrite Hb in Hin'.
    cbn [flat_map app] in Hin'. contradiction.
Qed.

(** Where the suffix pattern matches, the pattern of [extract_numbers] finds
    a token too. *)
Lemma no_token_no_suffix :
  finditer s number_pattern = [] -> finditer s suffix_pattern = [].
Proof.
  intros H. apply no_element_nil. intros m Hm.
  destruct (suffix_token m Hm) as [Hw _].
  destruct (suffix_match_shape s m Hm) as [j [a [c [_ [_ [Hnum _]]]]]].
  destruct (numeral_head _ Hnum) as [d [l' [El Hd]]].
  pose proof (slice_head_nth _ _ _ _ El) as Hnth.
  rewrite (proj1 no_token_iff H _ _ Hnth Hd) in Hw. discriminate.
Qed.

End Tokens.

Section ForallFacts.

Lemma Forall2_map_left {A B C : Type} (f : A -> B) (P : B -> C -> Prop) l l' :
  Forall2 P (map f l) l' -> Forall2 (fun a c => P (f a) c) l l'.
Proof.
  revert l'; induction l as [| a l IH]; intros l' H; inversion H; subst;
    constructor; auto.
Qed.

Lemma Forall2_and_left {A B : Type} (P : A -> B -> Prop) (Q : A -> Prop) l l' :
  Forall2 P l l' -> (forall a, In a l -> Q a) ->
  Forall2 (fun a b => P a b /\ Q a) l l'.
Proof.
  induction 1 as [| a b l l' Hab _ IH]; intros HQ; constructor.
  - split; [exact Hab | apply HQ; now left].
  - apply IH. intros x Hx. apply HQ. now right.
Qed.

Lemma mapM_nil_iff {A B : Type} (f : A -> option B) l :
  mapM f l = Some [] <-> l = [].
Proof.
  split; [| intros ->; reflexivity].
  destruct l as [| a l]; [reflexivity |]. cbn [mapM].
  destruct (f a); cbn [bind]; [| discriminate].
  destruct (mapM f l); cbn [bind]; discriminate.
Qed.

End ForallFacts.

(** X6.  [extract_numbers] always returns, one value per match, and every
    match is one to three digits, then groups of a comma and three digits,
    then nothing or a point and digits; no word character stands before it.
    So a token never has more than three digits before its first comma or
    point, and a digit that follows a letter, a digit or [_] starts none. *)
Theorem extracted_token_shape (text : string) :
  exists numbers,
    extract_numbers text = Some numbers /\
    Forall2 (fun m num =>
               py_float (replace_commas (group0 (chars text) m)) = Some num /\
               grouped_shape (group0 (chars text) m) /\
               word_before (chars text) (m_start m) = false)
            (finditer (chars text) number_pattern) numbers.
Proof.
  destruct (extract_numbers_total text) as [ns [E F]].
  exists ns. split; [exact E |].
  unfold findall in F. apply Forall2_map_left in F.
  eapply Forall2_impl;
    [| apply (Forall2_and_left _
                (fun m => grouped_shape (group0 (chars text) m) /\
                          word_before (chars text) (m_start m) = false)
                _ _ F)].
  - cbv beta. intros m num [[H1 _] [H2 H3]]. auto.
  - intros m Hm. destruct (number_token _ m Hm) as [H1 [H2 _]]. now split.
Qed.

(** X7.  The matches of both patterns are spans of the text that are not
    empty and do not overlap, in the order of the text: each match ends
    inside the text and the next one starts where it ends, or later. *)
Theorem tokens_disjoint_in_order (text : string) :
  (Forall (span_inside (chars text)) (finditer (chars text) number_pattern) /\
   StronglySorted before (finditer (chars text) number_pattern)) /\
  (Forall (span_inside (chars text)) (finditer (chars text) suffix_pattern) /\
   StronglySorted before (finditer (chars text) suffix_pattern)).
Proof.
  split; (split; [| apply finditer_ordered]); rewrite Forall_forall; intros m Hm.
  - now destruct (number_token _ m Hm) as [_ [_ H]].
  - now destruct (suffix_token _ m Hm) as [_ [_ H]].
Qed.

(** X8.  [parse_number_with_suffix] returns one tuple per match, and a match
    has no word character before its number and none after its letter: a
    number glued to a word on its left, or a letter followed by a letter, a
    digit or [_], is no suffixed number. *)
Theorem suffixed_token_bounded (text : string) :
  exists tuples,
    parse_number_with_suffix text = Some tuples /\
    Forall2 (fun m t =>
               tuple_of_match (chars text) m t /\
               word_before (chars text) (m_start m) = false /\
               word_at (chars text) (m_end m) = false)
            (finditer (chars text) suffix_pattern) tuples.
Proof.
  destruct (parse_number_with_suffix_total text) as [ts [E F]].
  exists ts. split; [exact E |].
  eapply Forall2_impl;
    [| apply (Forall2_and_left _
                (fun m => word_before (chars text) (m_start m) = false /\
                          word_at (chars text) (m_end m) = false)
                _ _ F)].
  - cbv beta. intros m t [[H1 _] [H2 H3]]. auto.
  - intros m Hm. destruct (suffix_token _ m Hm) as [H1 [H2 _]]. now split.
Qed.

(** X9.  [extract_numbers] returns the empty list exactly when every digit
    of the text stands after a word character (a letter, a digit or [_]);
    then [parse_number_with_suffix] returns the empty list too. *)
Theorem no_number_iff (text : string) :
  (extract_numbers text = Some [] <->
   forall i a, nth_error (chars text) i = Some a -> is_digit a = true ->
               word_before (chars text) i = true) /\
  (extract_numbers text = Some [] -> parse_number_with_suffix text = Some []).
Proof.
  assert (E : extract_numbers text = Some [] <->
              finditer (chars text) number_pattern = []).
  { unfold extract_numbers, findall. rewrite mapM_nil_iff. split.
    - apply map_eq_nil.
    - intros ->. reflexivity. }
  split.
  - rewrite E. apply no_token_iff.
  - intros H. apply E, no_token_no_suffix in H.
    unfold parse_number_with_suffix. now rewrite H.
Qed.

(** X10.  What [top_values] holds after the loop over the pages: for every
    page with text, an entry for each suffixed number, and an entry for each
    plain number whose value is not the raw value of a suffixed number of
    that page; nothing else.  So a suffixed number is never dropped, and a
    plain number is dropped exactly when its value equals such a raw value,
    also when it is another occurrence in the text. *)
Theorem top_values_exactly (pdf : list page) :
  exists top_values,
    scaled_pages 0 pdf [] = Some top_values /\
    forall e, In e top_values <->
      exists k text suffix_numbers numbers,
        page_text pdf k text /\
        parse_number_with_suffix text = Some suffix_numbers /\
        extract_numbers text = Some numbers /\
        ((exists t, In t suffix_numbers /\ e = suffix_entry k t) \/
         (exists num, In num numbers /\
            set_mem num (map raw_of suffix_numbers) = false /\
            e = plain_entry k (find_scale_factor text) num)).
Proof.
  destruct (scaled_pages_spec pdf 0 []) as [tv [E H]].
  exists tv. split; [exact E |].
  intros e. rewrite H. split.
  - intros [k [text [es_k [H1 [H2 H3]]]]]. cbn [Nat.add] in H2.
    unfold page_entries in H2.
    destruct (parse_number_with_suffix text) as [sn |] eqn:Es; [| discriminate].
    destruct (extract_numbers text) as [ns |] eqn:En; [| discriminate].
    cbn [bind] in H2. injection H2 as <-.
    exists k, text, sn, ns. split; [exact H1 |].
    split; [exact Es |]. split; [exact En |].
    apply in_app_or in H3. destruct H3 as [H3 | H3].
    + left. apply in_map_iff in H3. destruct H3 as [t [<- Ht]]. eauto.
    + right. apply in_map_iff in H3. destruct H3 as [num [<- Hn]].
      apply filter_In in Hn. destruct Hn as [Hn Hm].
      apply negb_true_iff in Hm. eauto.
  - intros [k [text [sn [ns [H1 [Es [En H3]]]]]]].
    exists k, text.
    eexists. split; [exact H1 |]. cbn [Nat.add].
    unfold page_entries. rewrite Es, En. cbn [bind].
    split; [reflexivity |]. apply in_or_app.
    destruct H3 as [[t [Ht ->]] | [num [Hn [Hm ->]]]].
    + left. now apply in_map.
    + right. apply in_map. apply filter_In. split; [exact Hn |].
      now rewrite Hm.
Qed.

(** X11.  What [raw_values] holds after the loop over the pages: for every
    page with text, a pair of each number of [extract_numbers] with the
    number of the page; nothing else.  The plain numbers that the scaled
    ranking drops are still in the raw ranking. *)
Theorem raw_values_exactly (pdf : list page) :
  exists raw_values,
    raw_pages 0 pdf [] = Some raw_values /\
    forall x n, In (x, n) raw_values <->
      exists k text numbers,
        page_text pdf k text /\ n = Z.of_nat k + 1 /\
        extract_numbers text = Some numbers /\ In x numbers.
Proof.
  destruct (raw_pages_spec pdf 0 []) as [rv [E H]].
  exists rv. split; [exact E |].
  intros x n. rewrite H. split.
  - intros [k [text [es_k [H1 [H2 H3]]]]]. cbn [Nat.add] in H2.
    unfold raw_entries in H2.
    destruct (extract_numbers text) as [ns |] eqn:En; [| discriminate].
    cbn [bind] in H2. injection H2 as <-.
    apply in_map_iff in H3. destruct H3 as [num [[= <- <-] Hn]].
    exists k, text, ns. auto.
  - intros [k [text [ns [H1 [-> [En Hn]]]]]].
    exists k, text. eexists. split; [exact H1 |]. cbn [Nat.add].
    unfold raw_entries. rewrite En. cbn [bind].
    split; [reflexivity |].
    apply in_map_iff. exists x. auto.
Qed.

(** X12.  [find_scale_factor] returns 1, 10^3, 10^6 or 10^9 and nothing
    else, so the multiplier of every entry of the scaled ranking is one of
    1, 10^3, 10^6, 10^9 and 10^12. *)
Theorem multipliers_are_powers_of_thousand (pdf : list page) (top_n : Z)
    (text : string) :
  In (find_scale_factor text) [1; 1000; 1000000; 1000000000] /\
  exists out,
    find_largest_number_in_pdf pdf top_n = Some out /\
    Forall (fun e => In (multiplier e)
                       [1; 1000; 1000000; 1000000000; 1000000000000]) out.
Proof.
  split; [apply find_scale_factor_range |].
  destruct (top_values_spec pdf) as [tv [E H]].
  unfold find_largest_number_in_pdf. rewrite E. cbn [bind].
  eexists. split; [reflexivity |].
  rewrite Forall_forall. intros e He.
  apply slice_to_incl, sort_desc_in in He.
  destruct (H e He) as [k [txt [_ [_ [_ [[Hs | Hc] _]]]]]].
  - destruct Hs as [m [t [Hm [Ht [_ Hmul]]]]].
    destruct Ht as [g1 [a [raw_num [mult [_ [_ [_ [Hsuf [Hl ->]]]]]]]]].
    cbn [snd] in Hmul. rewrite Hmul.
    destruct (suffix_letter_lookup a Hsuf) as [mult' [Hl' Hin]].
    rewrite Hl in Hl'. injection Hl' as <-.
    simpl in Hin |- *. tauto.
  - destruct Hc as [Hmul _]. rewrite Hmul.
    pose proof (find_scale_factor_range txt) as Hr.
    simpl in Hr |- *. tauto.
Qed.

Section Prefix.

Lemma chars_app (a b : string) : chars (a ++ b)%string = chars a ++ chars b.
Proof.
  induction a as [| c a IH]; [reflexivity |].
  cbn. unfold chars in IH. now rewrite IH.
Qed.

Lemma lower_app l1 l2 : lower (l1 ++ l2) = lower l1 ++ lower l2.
Proof. apply map_app. Qed.

Lemma lower_length l : List.length (lower l) = List.length l.
Proof. apply length_map. Qed.

Lemma occurs_at_shift p l1 l2 k :
  occurs_at p (l1 ++ l2) (List.length l1 + k) <-> occurs_at p l2 k.
Proof.
  unfold occurs_at. rewrite length_app.
  replace (skipn (List.length l1 + k) (l1 ++ l2)) with (skipn k l2).
  - split; intros [H1 H2]; split; try exact H2.
    + lia.
    + lia.
  - rewrite skipn_app.
    replace (List.length l1 + k - List.length l1)%nat with k by lia.
    assert (E : skipn (List.length l1 + k) l1 = [])
      by (apply skipn_all2; lia).
    now rewrite E.
Qed.

(** A form that occurs in [l2] has its last occurrence in [l1 ++ l2] at the
    same place of [l2]. *)
Lemma rfind_app_found p l1 l2 :
  0 <= rfind l2 p ->
  rfind (l1 ++ l2) p = Z.of_nat (List.length l1) + rfind l2 p.
Proof.
  intros Hpos.
  destruct (rfind_spec l2 p) as [[E _] | [k [E [Hk Hlast]]]]; [lia |].
  rewrite E.
  destruct (rfind_spec (l1 ++ l2) p) as [[_ Hnone] | [k' [E' [Hk' Hlast']]]].
  - exfalso. apply (Hnone (List.length l1 + k)%nat). now apply occurs_at_shift.
  - rewrite E'.
    destruct (Nat.lt_trichotomy k' (List.length l1 + k)) as [Hlt | [-> | Hgt]].
    + exfalso. apply (Hlast' _ Hlt). now apply occurs_at_shift.
    + lia.
    + exfalso. apply (Hlast (k' - List.length l1)%nat); [lia |].
      apply (occurs_at_shift p l1).
      now replace (List.length l1 + (k' - List.length l1))%nat with k' by lia.
Qed.

(** A form that does not occur in [l2] has its last occurrence in
    [l1 ++ l2], if any, before [l2] starts. *)
Lemma rfind_app_missing p l1 l2 :
  rfind l2 p = -1 -> rfind (l1 ++ l2) p < Z.of_nat (List.length l1).
Proof.
  intros Hm.
  destruct (rfind_spec l2 p) as [[_ Hnone] | [k [E _]]]; [| lia].
  destruct (rfind_spec (l1 ++ l2) p) as [[E' _] | [k' [E' [Hk' _]]]]; [lia |].
  rewrite E'.
  destruct (Nat.lt_ge_cases k' (List.length l1)) as [Hlt | Hge]; [lia |].
  exfalso. apply (Hnone (k' - List.length l1)%nat).
  apply (occurs_at_shift p l1).
  now replace (List.length l1 + (k' - List.length l1))%nat with k' by lia.
Qed.

Lemma last_index_app_found a b p :
  0 <= last_index b p ->
  last_index (a ++ b)%string p =
    Z.of_nat (List.length (chars a)) + last_index b p.
Proof.
  unfold last_index. intros H.
  now rewrite chars_app, lower_app, (rfind_app_found _ _ _ H), lower_length.
Qed.

Lemma last_index_app_missing a b p :
  last_index b p = -1 ->
  last_index (a ++ b)%string p < Z.of_nat (List.length (chars a)).
Proof.
  unfold last_index. intros H.
  rewrite chars_app, lower_app.
  pose proof (rfind_app_missing _ (lower (chars a)) _ H) as Hlt.
  now rewrite lower_length in Hlt.
Qed.

End Prefix.

(** X13.  The last keyword governs whatever stands before it: when a
    surface form of a keyword occurs in [text], putting any text before it,
    other keywords included, does not change the factor. *)
Theorem scale_factor_ignores_prefix (before_text text p : string) (f : Z)
    (Hin : In (p, f) (scale_forms SCALE_KEYWORDS))
    (Hocc : 0 <= last_index text p) :
  find_scale_factor (before_text ++ text)%string = find_scale_factor text.
Proof.
  destruct (exists_max_form text (scale_forms SCALE_KEYWORDS))
    as [Hnone | [q [g [Hq [Hpos Hmax]]]]].
  - rewrite (Hnone p f Hin) in Hocc. lia.
  - destruct (find_scale_factor_in_spec SCALE_KEYWORDS text scale_forms_table)
      as [_ M].
    destruct (find_scale_factor_in_spec SCALE_KEYWORDS
                (before_text ++ text)%string scale_forms_table) as [_ M'].
    unfold find_scale_factor.
    rewrite (M q g Hq Hpos Hmax). apply (M' q g Hq).
    + rewrite (last_index_app_found _ _ _ Hpos). lia.
    + intros q' g' Hq'. rewrite (last_index_app_found _ _ _ Hpos).
      pose proof (rfind_lower_bound (lower (chars text)) (chars q')) as Hlb.
      fold (last_index text q') in Hlb.
      destruct (Z.eq_dec (last_index text q') (-1)) as [Em | Ne].
      * pose proof (last_index_app_missing before_text text q' Em). lia.
      * rewrite (last_index_app_found before_text text q') by lia.
        specialize (Hmax q' g' Hq'). lia.
Qed.

Lemma scale_factor_ignores_prefix_witness :
  In ("(thousands)", 1000) (scale_forms SCALE_KEYWORDS) /\
  0 <= last_index "Costs (Thousands): 12" "(thousands)" /\
  find_scale_factor ("Revenue in billions: 3. " ++ "Costs (Thousands): 12")
    = find_scale_factor "Costs (Thousands): 12".
Proof.
  assert (H1 : In ("(thousands)", 1000) (scale_forms SCALE_KEYWORDS))
    by (vm_compute; tauto).
  assert (H2 : 0 <= last_index "Costs (Thousands): 12" "(thousands)")
    by (vm_compute; discriminate).
  split; [exact H1 |]. split; [exact H2 |].
  exact (scale_factor_ignores_prefix "Revenue in billions: 3. "
           "Costs (Thousands): 12" "(thousands)" 1000 H1 H2).
Defined.

(** X1.  The sort of both rankings is determined by the collection: the list
    that [sort_desc] returns is a stable arrangement of the collection,
    largest key first, and there is no other one.  So any stable sort, as
    [list.sort] is, returns this list. *)
Theorem ranking_order_unique (pdf : list page) :
  (exists top_values,
     scaled_pages 0 pdf [] = Some top_values /\
     stable_desc scaled_value top_values (sort_desc scaled_value top_values) /\
     forall l', stable_desc scaled_value top_values l' ->
                l' = sort_desc scaled_value top_values) /\
  (exists raw_values,
     raw_pages 0 pdf [] = Some raw_values /\
     stable_desc fst raw_values (sort_desc fst raw_values) /\
     forall l', stable_desc fst raw_values l' -> l' = sort_desc fst raw_values).
Proof.
  split.
  - destruct (top_values_spec pdf) as [tv [E _]].
    pose proof (top_values_nonneg pdf tv E) as N.
    exists tv. split; [exact E |].
    split; [now apply sort_desc_stable | intros l'; now apply sort_desc_unique].
  - destruct (raw_values_spec pdf) as [rv [E _]].
    pose proof (raw_values_nonneg pdf rv E) as N.
    exists rv. split; [exact E |].
    split; [now apply sort_desc_stable | intros l'; now apply sort_desc_unique].
Qed.



(** X3.  For [0 <= top_n], [find_largest_raw_numbers] returns the first
    [top_n] pairs of the stable sort of [raw_values] by the raw value,
    largest first; the result has at most [top_n] pairs, all of them when
    there are no more than [top_n], and no pair left out has a greater value
    than a pair returned. *)
Theorem raw_top_n_of_stable_sort (pdf : list page) (top_n : Z)
    (Hn : 0 <= top_n) :
  exists raw_values,
    raw_pages 0 pdf [] = Some raw_values /\
    let sorted := sort_desc fst raw_values in
    stable_desc fst raw_values sorted /\
    find_largest_raw_numbers pdf top_n =
      Some (firstn (Z.to_nat top_n) sorted) /\
    Z.of_nat (List.length (firstn (Z.to_nat top_n) sorted)) <= top_n /\
    (Z.of_nat (List.length raw_values) <= top_n ->
     firstn (Z.to_nat top_n) sorted = sorted) /\
    (forall a b, In a (firstn (Z.to_nat top_n) sorted) ->
       In b (skipn (Z.to_nat top_n) sorted) ->
       PyFloat.leb (fst b) (fst a) = true).
Proof.
  destruct (raw_values_spec pdf) as [rv [E _]].
  pose proof (raw_values_nonneg pdf rv E) as N.
  exists rv. split; [exact E |]. cbn zeta.
  split; [now apply sort_desc_stable |].
  split.
  { unfold find_largest_raw_numbers. rewrite E. cbn [bind].
    now rewrite slice_to_nonneg. }
  split; [rewrite length_firstn; lia |].
  split.
  - intros Hle. apply firstn_all2. rewrite sort_desc_length. lia.
  - intros a b Ha Hb.
    exact (sorted_split _ _ (sort_desc_sorted fst rv N) _ a b Ha Hb).
Qed.

Lemma raw_top_n_of_stable_sort_witness :
  0 <= 2 /\
  exists raw_values,
    raw_pages 0 [Some "7 9"; None; Some "9 8"] [] = Some raw_values /\
    find_largest_raw_numbers [Some "7 9"; None; Some "9 8"] 2 =
      Some (firstn 2 (sort_desc fst raw_values)) /\
    firstn 2 (sort_desc fst raw_values) =
      [(PyFloat.of_int 9, 1); (PyFloat.of_int 9, 3)].
Proof.
  split; [lia |].
  destruct (raw_top_n_of_stable_sort [Some "7 9"; None; Some "9 8"] 2)
    as [rv [E [_ [F _]]]]; [lia |].
  exists rv. split; [exact E |]. split; [exact F |].
  assert (E' : raw_pages 0 [Some "7 9"; None; Some "9 8"] [] =
               Some [(PyFloat.of_int 7, 1); (PyFloat.of_int 9, 1);
                     (PyFloat.of_int 9, 3); (PyFloat.of_int 8, 3)])
    by (vm_compute; reflexivity).
  rewrite E' in E. injection E as <-. vm_compute. reflexivity.
Defined.

(** X4.  For a negative [top_n] both functions return the sorted collection
    without its last [-top_n] elements, the smallest ones, and nothing when
    the collection has no more than [-top_n] elements. *)
Theorem negative_top_n_drops_smallest (pdf : list page) (top_n : Z)
    (Hn : top_n < 0) :
  (exists top_values out dropped,
     scaled_pages 0 pdf [] = Some top_values /\
     find_largest_number_in_pdf pdf top_n = Some out /\
     sort_desc scaled_value top_values = out ++ dropped /\
     List.length dropped =
       Nat.min (Z.to_nat (- top_n)) (List.length top_values)) /\
  (exists raw_values out dropped,
     raw_pages 0 pdf [] = Some raw_values /\
     find_largest_raw_numbers pdf top_n = Some out /\
     sort_desc fst raw_values = out ++ dropped /\
     List.length dropped =
       Nat.min (Z.to_nat (- top_n)) (List.length raw_values)).
Proof.
  assert (G : forall (A : Type) (l : list A),
    exists dropped, l = slice_to l top_n ++ dropped /\
      List.length dropped = Nat.min (Z.to_nat (- top_n)) (List.length l)).
  { intros A l. unfold slice_to.
    destruct (Z.leb_spec 0 top_n) as [H | _]; [lia |].
    exists (skipn (List.length l - Z.to_nat (- top_n)) l).
    split; [now rewrite firstn_skipn |]. rewrite length_skipn. lia. }
  split.
  - destruct (top_values_spec pdf) as [tv [E _]].
    destruct (G _ (sort_desc scaled_value tv)) as [dropped [S L]].
    exists tv, (slice_to (sort_desc scaled_value tv) top_n), dropped.
    split; [exact E |].
    split; [unfold find_largest_number_in_pdf; now rewrite E |].
    split; [exact S | now rewrite L, sort_desc_length].
  - destruct (raw_values_spec pdf) as [rv [E _]].
    destruct (G _ (sort_desc fst rv)) as [dropped [S L]].
    exists rv, (slice_to (sort_desc fst rv) top_n), dropped.
    split; [exact E |].
    split; [unfold find_largest_raw_numbers; now rewrite E |].
    split; [exact S | now rewrite L, sort_desc_length].
Qed.

Lemma negative_top_n_drops_smallest_witness :
  -1 < 0 /\
  find_largest_raw_numbers [Some "7 9"; None; Some "9 8"] (-1) =
    Some [(PyFloat.of_int 9, 1); (PyFloat.of_int 9, 3); (PyFloat.of_int 8, 3)].
Proof.
  split; [lia |].
  destruct (negative_top_n_drops_smallest [Some "7 9"; None; Some "9 8"] (-1))
    as [_ [rv [out [dropped [E [F _]]]]]]; [lia |].
  rewrite F. f_equal.
  assert (F' : find_largest_raw_numbers [Some "7 9"; None; Some "9 8"] (-1) =
    Some [(PyFloat.of_int 9, 1); (PyFloat.of_int 9, 3); (PyFloat.of_int 8, 3)])
    by (vm_compute; reflexivity).
  rewrite F in F'. now injection F'.
Defined.

(** X5.  Asking for more never changes what comes first: for
    [0 <= top_n <= top_n'] the result for [top_n'] is the result for [top_n]
    followed by further elements, in both rankings. *)
Theorem top_n_prefix (pdf : list page) (top_n top_n' : Z)
    (Hn : 0 <= top_n) (Hn' : top_n <= top_n') :
  (exists out more,
     find_largest_number_in_pdf pdf top_n = Some out /\
     find_largest_number_in_pdf pdf top_n' = Some (out ++ more)) /\
  (exists out more,
     find_largest_raw_numbers pdf top_n = Some out /\
     find_largest_raw_numbers pdf top_n' = Some (out ++ more)).
Proof.
  assert (G : forall (A : Type) (l : list A),
    exists more, slice_to l top_n' = slice_to l top_n ++ more).
  { intros A l. rewrite !slice_to_nonneg by lia.
    exists (firstn (Z.to_nat top_n' - Z.to_nat top_n) (skipn (Z.to_nat top_n) l)).
    rewrite <- firstn_plus. f_equal. lia. }
  split.
  - destruct (top_values_spec pdf) as [tv [E _]].
    destruct (G _ (sort_desc scaled_value tv)) as [more S].
    exists (slice_to (sort_desc scaled_value tv) top_n), more.
    unfold find_largest_number_in_pdf. rewrite E. cbn [bind].
    now rewrite S.
  - destruct (raw_values_spec pdf) as [rv [E _]].
    destruct (G _ (sort_desc fst rv)) as [more S].
    exists (slice_to (sort_desc fst rv) top_n), more.
    unfold find_largest_raw_numbers. rewrite E. cbn [bind].
    now rewrite S.
Qed.

Lemma top_n_prefix_witness :
  0 <= 1 /\ 1 <= 3 /\
  exists out more,
    find_largest_raw_numbers [Some "7 9"; None; Some "9 8"] 1 = Some out /\
    find_largest_raw_numbers [Some "7 9"; None; Some "9 8"] 3 =
      Some (out ++ more).
Proof.
  split; [lia |]. split; [lia |].
  apply (top_n_prefix [Some "7 9"; None; Some "9 8"] 1 3); lia.
Defined.

Section ListFacts.
Context {A B C : Type}.

Lemma flat_map_shift (f : A -> list B) (f' : C -> list B) (g : A -> C)
    (h : B -> B) l :
  (forall x, In x l -> f' (g x) = map h (f x)) ->
  flat_map f' (map g l) = map h (flat_map f l).
Proof.
  induction l as [| x l IH]; intros H; [reflexivity |].
  cbn [map flat_map]. rewrite map_app, (H x (or_introl eq_refl)), IH;
    [reflexivity |].
  intros y Hy. apply H. now right.
Qed.

Lemma mapM_app (f : A -> option B) l1 l2 :
  mapM f (l1 ++ l2) =
  (x <- mapM f l1 ;; y <- mapM f l2 ;; Some (x ++ y)).
Proof.
  induction l1 as [| a l1 IH]; cbn [app mapM bind].
  - now destruct (mapM f l2).
  - destruct (f a) as [v |]; cbn [bind]; [| reflexivity].
    rewrite IH. destruct (mapM f l1) as [x |]; cbn [bind]; [| reflexivity].
    now destruct (mapM f l2).
Qed.

End ListFacts.

(** The part of the text before a character that the pattern rejects:
    the matcher does there what it does on that part alone. *)
Section LeftPart.
Variables (a b : list ascii) (c : ascii).
Hypothesis Hc : is_word c = false.

Lemma nth_error_middle : nth_error (a ++ c :: b) (List.length a) = Some c.
Proof. now rewrite nth_error_app2, Nat.sub_diag by lia. Qed.

Lemma word_at_left i :
  (i <= List.length a)%nat -> word_at (a ++ c :: b) i = word_at a i.
Proof.
  intros Hi. unfold word_at.
  destruct (Nat.eq_dec i (List.length a)) as [-> | Hne].
  - rewrite nth_error_middle, Hc.
    now rewrite (proj2 (nth_error_None a (List.length a))) by lia.
  - now rewrite nth_error_app1 by lia.
Qed.

Lemma word_before_left i :
  (i <= List.length a)%nat ->
  word_before (a ++ c :: b) i = word_before a i.
Proof.
  intros Hi. destruct i as [| i]; [reflexivity |].
  cbn [word_before]. apply word_at_left. lia.
Qed.

Lemma star_loop_agree body body' n :
  (forall i cs, (i <= n)%nat -> body i cs = body' i cs) ->
  (forall i cs j cs', In (j, cs') (body' i cs) -> (i <= n)%nat -> (j <= n)%nat) ->
  forall fuel i cs, (i <= n)%nat ->
    star_loop body fuel i cs = star_loop body' fuel i cs.
Proof.
  intros He Hb fuel. induction fuel as [| fuel IH]; intros i cs Hi;
    [reflexivity |].
  cbn [star_loop]. rewrite (He i cs Hi). f_equal.
  apply flat_map_ext_in. intros [j cs'] Hin. cbn [fst snd].
  destruct (i <? j)%nat; [| reflexivity].
  apply IH. exact (Hb _ _ _ _ Hin Hi).
Qed.

Lemma run_left r :
  rejects r c = true ->
  forall i cs, (i <= List.length a)%nat ->
    run (a ++ c :: b) r i cs = run a r i cs.
Proof.
  induction r as [| p | | r1 IH1 r2 IH2 | r1 IH1 r2 IH2 | r1 IH1 | n r1 IH1];
    cbn [rejects]; intros Hr i cs Hi.
  - reflexivity.
  - cbn [run]. destruct (Nat.eq_dec i (List.length a)) as [-> | Hne].
    + rewrite nth_error_middle.
      rewrite (proj2 (nth_error_None a (List.length a))) by lia.
      apply negb_true_iff in Hr. now rewrite Hr.
    + now rewrite nth_error_app1 by lia.
  - cbn [run]. unfold at_boundary.
    now rewrite word_at_left, word_before_left.
  - apply andb_true_iff in Hr. destruct Hr as [Hr1 Hr2].
    cbn [run]. rewrite (IH1 Hr1 i cs Hi).
    apply flat_map_ext_in. intros [j cs'] Hin. cbn [fst snd].
    apply (IH2 Hr2). exact (run_bounded a r1 _ _ _ _ Hin Hi).
  - apply andb_true_iff in Hr. destruct Hr as [Hr1 Hr2].
    cbn [run]. now rewrite (IH1 Hr1 i cs Hi), (IH2 Hr2 i cs Hi).
  - cbn [run].
    rewrite (star_loop_agree (run (a ++ c :: b) r1) (run a r1) (List.length a));
      [| intros; now apply IH1 | apply (run_bounded a r1) | exact Hi].
    rewrite length_app. apply (star_fuel a r1 i cs _ Hi).
  - cbn [run]. now rewrite (IH1 Hr i cs Hi).
Qed.

Lemma match_at_left r i adv :
  rejects r c = true -> (i <= List.length a)%nat ->
  match_at (a ++ c :: b) r i adv = match_at a r i adv.
Proof. intros Hr Hi. unfold match_at. now rewrite run_left. Qed.

Lemma slice_left i j :
  (j <= List.length a)%nat -> slice (a ++ c :: b) i j = slice a i j.
Proof.
  intros Hj. unfold slice.
  destruct (le_lt_dec i j) as [Hij | Hji].
  - rewrite skipn_app, firstn_app, length_skipn.
    replace (i - List.length a)%nat with 0%nat by lia.
    replace (j - i - (List.length a - i))%nat with 0%nat by lia.
    cbn [skipn firstn]. apply app_nil_r.
  - now replace (j - i)%nat with 0%nat by lia.
Qed.

End LeftPart.

(** The part of the text after a prefix that ends the word: the matcher
    does there what it does on that part alone, [length pre] characters
    further. *)
Section RightPart.
Variables (pre s : list ascii).
Hypothesis Hpre : word_before (pre ++ s) (List.length pre) = false.

Lemma word_at_right i :
  word_at (pre ++ s) (List.length pre + i) = word_at s i.
Proof.
  unfold word_at. rewrite nth_error_app2 by lia.
  now replace (List.length pre + i - List.length pre)%nat with i by lia.
Qed.

Lemma word_before_right i :
  word_before (pre ++ s) (List.length pre + i) = word_before s i.
Proof.
  destruct i as [| i].
  - now rewrite Nat.add_0_r, Hpre.
  - rewrite Nat.add_succ_r. cbn [word_before]. apply word_at_right.
Qed.

Lemma ltb_shift n i j : (n + i <? n + j)%nat = (i <? j)%nat.
Proof.
  destruct (Nat.ltb_spec i j), (Nat.ltb_spec (n + i) (n + j));
    try reflexivity; lia.
Qed.

Lemma eqb_shift n i j : Nat.eqb (n + i) (n + j) = Nat.eqb i j.
Proof.
  destruct (Nat.eqb_spec i j), (Nat.eqb_spec (n + i) (n + j));
    try reflexivity; lia.
Qed.

Lemma star_loop_shift body body' n len :
  (forall i cs, (i <= len)%nat ->
     body' (n + i)%nat (shift_caps n cs) = map (shift_end n) (body i cs)) ->
  (forall i cs j cs', In (j, cs') (body i cs) -> (i <= len)%nat -> (j <= len)%nat) ->
  forall fuel i cs, (i <= len)%nat ->
    star_loop body' fuel (n + i)%nat (shift_caps n cs) =
    map (shift_end n) (star_loop body fuel i cs).
Proof.
  intros He Hb fuel. induction fuel as [| fuel IH]; intros i cs Hi;
    [reflexivity |].
  cbn [star_loop]. rewrite (He i cs Hi), map_app. f_equal.
  apply flat_map_shift. intros [j cs'] Hin. unfold shift_end; cbn [fst snd].
  rewrite ltb_shift. destruct (i <? j)%nat; [| reflexivity].
  apply IH. exact (Hb _ _ _ _ Hin Hi).
Qed.

Lemma run_right r : forall i cs, (i <= List.length s)%nat ->
  run (pre ++ s) r (List.length pre + i) (shift_caps (List.length pre) cs) =
  map (shift_end (List.length pre)) (run s r i cs).
Proof.
  induction r as [| p | | r1 IH1 r2 IH2 | r1 IH1 r2 IH2 | r1 IH1 | n r1 IH1];
    intros i cs Hi.
  - reflexivity.
  - cbn [run]. rewrite nth_error_app2 by lia.
    replace (List.length pre + i - List.length pre)%nat with i by lia.
    destruct (nth_error s i) as [x |]; [| reflexivity].
    destruct (p x); [| reflexivity].
    cbn [map]; unfold shift_end; cbn [fst snd]. now rewrite Nat.add_succ_r.
  - cbn [run]. unfold at_boundary.
    rewrite word_at_right, word_before_right.
    now destruct (xorb (word_before s i) (word_at s i)).
  - cbn [run]. rewrite (IH1 i cs Hi).
    apply flat_map_shift. intros [j cs'] Hin. unfold shift_end; cbn [fst snd].
    apply IH2. exact (run_bounded s r1 _ _ _ _ Hin Hi).
  - cbn [run]. now rewrite map_app, (IH1 i cs Hi), (IH2 i cs Hi).
  - cbn [run].
    rewrite (star_loop_shift (run s r1) (run (pre ++ s) r1)
               (List.length pre) (List.length s));
      [| exact IH1 | apply (run_bounded s r1) | exact Hi].
    rewrite length_app, Nat.add_comm.
    now rewrite (star_fuel s r1 i cs _ Hi).
  - cbn [run]. rewrite (IH1 i cs Hi), !map_map.
    apply map_ext. now intros [j cs'].
Qed.

Lemma match_at_right r i adv :
  (i <= List.length s)%nat ->
  match_at (pre ++ s) r (List.length pre + i) adv =
  option_map (shift_match (List.length pre)) (match_at s r i adv).
Proof.
  intros Hi. unfold match_at.
  pose proof (run_right r i [] Hi) as E. cbn [shift_caps map] in E.
  rewrite E. clear E.
  induction (run s r i []) as [| [j cs] l IH]; [reflexivity |].
  cbn [map filter]; unfold shift_end; cbn [fst snd]. rewrite eqb_shift.
  destruct (negb (adv && Nat.eqb j i)); [reflexivity | exact IH].
Qed.

Lemma scan_right r fuel : forall i adv,
  scan (pre ++ s) fuel r (List.length pre + i) adv =
  map (shift_match (List.length pre)) (scan s fuel r i adv).
Proof.
  induction fuel as [| fuel IH]; intros i adv; [reflexivity |].
  rewrite !scan_step, length_app, ltb_shift.
  destruct (Nat.ltb_spec (List.length s) i) as [_ | Hi]; [reflexivity |].
  rewrite (match_at_right r i adv Hi).
  destruct (match_at s r i adv) as [m |]; cbn [option_map map].
  - f_equal. cbn [shift_match m_end]. rewrite eqb_shift. apply IH.
  - rewrite <- Nat.add_succ_r. apply IH.
Qed.

Lemma slice_right i j :
  slice (pre ++ s) (List.length pre + i) (List.length pre + j) = slice s i j.
Proof.
  unfold slice. rewrite skipn_app.
  rewrite (skipn_all2 pre) by lia.
  replace (List.length pre + i - List.length pre)%nat with i by lia.
  now replace (List.length pre + j - (List.length pre + i))%nat
    with (j - i)%nat by lia.
Qed.

Lemma group0_right m :
  group0 (pre ++ s) (shift_match (List.length pre) m) = group0 s m.
Proof. apply slice_right. Qed.

Lemma group_right m n :
  group (pre ++ s) (shift_match (List.length pre) m) n = group s m n.
Proof.
  unfold group. cbn [shift_match m_caps].
  induction (m_caps m) as [| [k [i j]] cs IH]; [reflexivity |].
  cbn [shift_caps map cap_lookup fst snd].
  destruct (Nat.eqb k n); [| exact IH].
  now rewrite slice_right.
Qed.

End RightPart.

(** The matches of a text around a separator. *)
Section Split.
Variables (a b : list ascii) (c : ascii) (r : regex).
Hypothesis Hc : is_word c = false.
Hypothesis Hr : rejects r c = true.
Hypothesis Hne : never_empty r.

Lemma match_at_nonempty (s : list ascii) i adv m :
  match_at s r i adv = Some m -> (i < m_end m)%nat.
Proof.
  intros H. apply match_at_run in H. destruct H as [<- H].
  apply run_sound in H. destruct H as [_ H].
  apply (slice_nonempty_lt s). now apply Hne.
Qed.

Lemma middle_assoc : a ++ c :: b = (a ++ [c]) ++ b.
Proof. now rewrite <- app_assoc. Qed.

Lemma scan_after_separator fuel adv :
  scan (a ++ c :: b) fuel r (S (List.length a)) adv =
  map (shift_match (S (List.length a))) (scan b fuel r 0 adv).
Proof.
  assert (El : List.length (a ++ [c]) = S (List.length a))
    by (rewrite length_app; cbn [List.length]; lia).
  rewrite middle_assoc.
  replace (S (List.length a)) with (List.length (a ++ [c]) + 0)%nat by lia.
  rewrite scan_right; [now rewrite Nat.add_0_r |].
  rewrite <- middle_assoc, El. cbn [word_before].
  unfold word_at. now rewrite nth_error_middle.
Qed.

Lemma scan_left : forall fuel pos,
  (pos <= List.length a)%nat ->
  (scan_measure (a ++ c :: b) pos false <= fuel)%nat ->
  scan (a ++ c :: b) fuel r pos false =
  scan a fuel r pos false ++
  map (shift_match (S (List.length a))) (finditer b r).
Proof.
  assert (El : List.length (a ++ c :: b) = (List.length a + S (List.length b))%nat)
    by now rewrite length_app.
  induction fuel as [| fuel IH]; intros pos Hpos Hm;
    unfold scan_measure in Hm; rewrite El in Hm; [lia |].
  rewrite !scan_step, (match_at_left a b c Hc r pos false Hr Hpos), El.
  destruct (Nat.ltb_spec (List.length a + S (List.length b)) pos) as [? | _];
    [lia |].
  destruct (Nat.ltb_spec (List.length a) pos) as [? | _]; [lia |].
  destruct (match_at a r pos false) as [m |] eqn:E.
  - pose proof (match_at_nonempty a _ _ _ E) as Hlt.
    apply match_at_run in E. destruct E as [Es E].
    pose proof (run_bounded a r _ _ _ _ E) as Hb.
    specialize (Hb Hpos).
    replace (Nat.eqb (m_end m) pos) with false
      by (symmetry; apply Nat.eqb_neq; lia).
    cbn [app]. f_equal. apply IH; [exact Hb |].
    unfold scan_measure. rewrite El. lia.
  - destruct (Nat.eq_dec pos (List.length a)) as [-> | Hn].
    + rewrite scan_after_separator.
      replace (scan a fuel r (S (List.length a)) false) with (@nil re_match).
      * cbn [app]. f_equal.
        replace fuel
          with (2 * List.length b + 2 + (fuel - (2 * List.length b + 2)))%nat
          by lia.
        apply finditer_fuel.
      * destruct fuel as [| fuel']; [reflexivity |].
        rewrite scan_step.
        destruct (Nat.ltb_spec (List.length a) (S (List.length a)));
          [reflexivity | lia].
    + apply IH; [lia |]. unfold scan_measure. rewrite El. lia.
Qed.

(** [finditer] on the whole text: the matches of the part before the
    separator, then those of the part after it. *)
Lemma finditer_split :
  finditer (a ++ c :: b) r =
  finditer a r ++ map (shift_match (S (List.length a))) (finditer b r).
Proof.
  unfold finditer at 1.
  rewrite scan_left; [| lia | unfold scan_measure; lia].
  f_equal. rewrite length_app. cbn [List.length].
  replace (2 * (List.length a + S (List.length b)) + 2)%nat
    with (2 * List.length a + 2 + 2 * S (List.length b))%nat by lia.
  apply finditer_fuel.
Qed.

Lemma group0_after_separator m :
  group0 (a ++ c :: b) (shift_match (S (List.length a)) m) = group0 b m.
Proof.
  rewrite middle_assoc.
  replace (S (List.length a)) with (List.length (a ++ [c]))
    by (rewrite length_app; cbn [List.length]; lia).
  apply group0_right.
Qed.

Lemma group_after_separator m n :
  group (a ++ c :: b) (shift_match (S (List.length a)) m) n = group b m n.
Proof.
  rewrite middle_assoc.
  replace (S (List.length a)) with (List.length (a ++ [c]))
    by (rewrite length_app; cbn [List.length]; lia).
  apply group_right.
Qed.

End Split.

Section Separators.
Variable c : ascii.
Hypothesis Hsep : separator c = true.

Lemma separator_not_word : is_word c = false.
Proof.
  unfold separator in Hsep.
  repeat (apply andb_true_iff in Hsep; destruct Hsep as [Hsep ?]).
  now apply negb_true_iff.
Qed.

Lemma separator_not_digit : is_digit c = false.
Proof.
  pose proof separator_not_word as H. unfold is_word in H.
  now destruct (is_digit c).
Qed.

Lemma separator_not_suffix_letter : is_suffix_letter c = false.
Proof.
  destruct (is_suffix_letter c) eqn:E; [| reflexivity].
  pose proof separator_not_word as H.
  unfold is_suffix_letter in E. apply existsb_exists in E.
  destruct E as [x [Hx E]]. apply Ascii.eqb_eq in E. subst x.
  cbn in Hx.
  repeat (destruct Hx as [<- | Hx]; [discriminate H |]).
  contradiction.
Qed.

Lemma separator_not_comma : Ascii.eqb "," c = false.
Proof.
  unfold separator in Hsep.
  repeat (apply andb_true_iff in Hsep; destruct Hsep as [Hsep ?]).
  now apply negb_true_iff.
Qed.

Lemma separator_not_point : Ascii.eqb "." c = false.
Proof.
  unfold separator in Hsep.
  repeat (apply andb_true_iff in Hsep; destruct Hsep as [Hsep ?]).
  now apply negb_true_iff.
Qed.

Lemma rejects_number_pattern : rejects number_pattern c = true.
Proof.
  unfold number_pattern, grouped_number, decimal_number, integer_number,
    Rep1to3, Rep3, Opt, Plus, digit, comma, point.
  cbn [rejects].
  now rewrite separator_not_digit, separator_not_comma, separator_not_point.
Qed.

Lemma rejects_suffix_pattern : rejects suffix_pattern c = true.
Proof.
  unfold suffix_pattern, grouped_number, decimal_number, integer_number,
    Rep1to3, Rep3, Opt, Plus, digit, comma, point.
  cbn [rejects].
  now rewrite separator_not_digit, separator_not_comma,
    separator_not_point, separator_not_suffix_letter.
Qed.

End Separators.

Lemma never_empty_number_pattern : never_empty number_pattern.
Proof.
  intros l H. now apply numeral_nonempty, lang_numeral, lang_number_pattern.
Qed.

Lemma never_empty_suffix_pattern : never_empty suffix_pattern.
Proof.
  intros l [l1 [l2 [-> [_ [l3 [l4 [-> [_ [l5 [l6 [-> [[x [-> _]] _]]]]]]]]]]]] E.
  apply app_eq_nil in E. destruct E as [_ E].
  apply app_eq_nil in E. destruct E as [_ E]. discriminate.
Qed.

Lemma chars_cons (c : ascii) (b : string) : chars (String c b) = c :: chars b.
Proof. reflexivity. Qed.

(** X14.  Numbers do not reach across a separator.  When an ASCII character
    that is no letter, digit, [_], comma or point stands between two texts
    (a blank, a line break, a bracket, a sign), [extract_numbers] returns
    for the whole text the numbers of the first text followed by the numbers
    of the second: the numbers of a page are the numbers of its lines. *)
Theorem numbers_split_at_separator (a b : string) (c : ascii) :
  separator c = true ->
  exists na nb,
    extract_numbers a = Some na /\ extract_numbers b = Some nb /\
    extract_numbers (a ++ String c b) = Some (na ++ nb).
Proof.
  intros Hsep.
  destruct (extract_numbers_total a) as [na [Ha _]].
  destruct (extract_numbers_total b) as [nb [Hb _]].
  exists na, nb. split; [exact Ha |]. split; [exact Hb |].
  unfold extract_numbers, findall in *.
  rewrite chars_app, chars_cons.
  rewrite (finditer_split _ _ c number_pattern
             (separator_not_word c Hsep) (rejects_number_pattern c Hsep)
             never_empty_number_pattern).
  rewrite map_app, map_map.
  rewrite (map_ext_in (group0 (chars a ++ c :: chars b)) (group0 (chars a))).
  - rewrite (map_ext _ (group0 (chars b))
               (group0_after_separator (chars a) (chars b) c)).
    now rewrite mapM_app, Ha, Hb.
  - intros m Hm. apply number_token in Hm. destruct Hm as [_ [_ [_ Hm]]].
    unfold group0. now apply slice_left.
Qed.

Lemma numbers_split_at_separator_witness :
  exists na nb,
    extract_numbers "1,234" = Some na /\ extract_numbers "56.7" = Some nb /\
    extract_numbers ("1,234" ++ String " " "56.7") = Some (na ++ nb).
Proof. apply (numbers_split_at_separator "1,234" "56.7" " "). reflexivity. Defined.

(** X15.  Suffixed numbers do not reach across a separator either:
    [parse_number_with_suffix] returns for the whole text the tuples of the
    first text followed by the tuples of the second. *)
Theorem suffixed_split_at_separator (a b : string) (c : ascii) :
  separator c = true ->
  exists ta tb,
    parse_number_with_suffix a = Some ta /\
    parse_number_with_suffix b = Some tb /\
    parse_number_with_suffix (a ++ String c b) = Some (ta ++ tb).
Proof.
  intros Hsep.
  destruct (parse_number_with_suffix_total a) as [ta [Ha _]].
  destruct (parse_number_with_suffix_total b) as [tb [Hb _]].
  exists ta, tb. split; [exact Ha |]. split; [exact Hb |].
  unfold parse_number_with_suffix in *.
  rewrite chars_app, chars_cons.
  rewrite (finditer_split _ _ c suffix_pattern
             (separator_not_word c Hsep) (rejects_suffix_pattern c Hsep)
             never_empty_suffix_pattern).
  rewrite mapM_app.
  assert (E1 : mapM (suffix_tuple (chars a ++ c :: chars b))
                 (finditer (chars a) suffix_pattern) = Some ta).
  { rewrite <- Ha. clear Ha.
    assert (H : forall m, In m (finditer (chars a) suffix_pattern) ->
                 suffix_tuple (chars a ++ c :: chars b) m =
                 suffix_tuple (chars a) m).
    { intros m Hm.
      destruct (suffix_match_shape _ m Hm) as [j [x [cs [Hcaps [He _]]]]].
      apply suffix_token in Hm. destruct Hm as [_ [_ [_ Hin]]].
      unfold suffix_tuple, group. rewrite Hcaps.
      cbn [cap_lookup Nat.eqb].
      now rewrite !slice_left by lia. }
    induction (finditer (chars a) suffix_pattern) as [| m l IH];
      [reflexivity |].
    cbn [mapM]. rewrite (H m (or_introl eq_refl)), IH; [reflexivity |].
    intros m' Hm'. apply H. now right. }
  assert (E2 : mapM (suffix_tuple (chars a ++ c :: chars b))
                 (map (shift_match (S (List.length (chars a))))
                      (finditer (chars b) suffix_pattern)) = Some tb).
  { rewrite <- Hb. clear Hb E1.
    induction (finditer (chars b) suffix_pattern) as [| m l IH];
      [reflexivity |].
    cbn [map mapM]. rewrite IH. f_equal.
    unfold suffix_tuple. now rewrite !group_after_separator. }
  now rewrite E1, E2.
Qed.

Lemma suffixed_split_at_separator_witness :
  exists ta tb,
    parse_number_with_suffix "56.7M" = Some ta /\
    parse_number_with_suffix "1.2B" = Some tb /\
    parse_number_with_suffix ("56.7M" ++ String "010" "1.2B") = Some (ta ++ tb).
Proof.
  apply (suffixed_split_at_separator "56.7M" "1.2B" "010"). reflexivity.
Defined.

Section Containers.

Lemma add_plain_numbers_ext i numbers scale_factor values values' :
  (forall x, set_mem x values = set_mem x values') ->
  forall top_values,
    add_plain_numbers i numbers scale_factor values top_values =
    add_plain_numbers i numbers scale_factor values' top_values.
Proof.
  intros H top_values. rewrite !add_plain_numbers_eq.
  now rewrite (filter_ext _ (fun num => negb (set_mem num values'))
                 (fun num => f_equal negb (H num))).
Qed.

End Containers.

(** X16.  The two hashed containers of the program do not let their
    internal order through.  Visiting the entries of [SCALE_KEYWORDS] in
    another order gives the same factor for every text; and when the values
    of [suffix_values] are stored in another order, every membership test
    answers the same and the second loop over a page appends the same
    entries. *)
Theorem container_order_irrelevant (keywords : list (string * Z))
    (values values' : list PyFloat.float)
    (Hk : Permutation SCALE_KEYWORDS keywords)
    (Hv : Permutation values values') :
  (forall text, find_scale_factor_in keywords text = find_scale_factor text) /\
  (forall x, set_mem x values = set_mem x values') /\
  (forall i numbers scale_factor top_values,
     add_plain_numbers i numbers scale_factor values top_values =
     add_plain_numbers i numbers scale_factor values' top_values).
Proof.
  split; [| split].
  - intros text. unfold find_scale_factor.
    apply find_scale_factor_in_perm; [apply scale_forms_table | exact Hk].
  - intros x. now apply set_mem_perm.
  - intros i numbers scale_factor top_values.
    apply add_plain_numbers_ext. intros x. now apply set_mem_perm.
Qed.

Lemma container_order_irrelevant_witness :
  Permutation SCALE_KEYWORDS (rev SCALE_KEYWORDS) /\
  Permutation [PyFloat.of_int 1; PyFloat.of_int 2]
              [PyFloat.of_int 2; PyFloat.of_int 1] /\
  find_scale_factor_in (rev SCALE_KEYWORDS) "(millions) in thousands" =
    find_scale_factor "(millions) in thousands".
Proof.
  split; [apply Permutation_rev |]. split; [apply perm_swap |].
  apply (container_order_irrelevant (rev SCALE_KEYWORDS)
           [PyFloat.of_int 1; PyFloat.of_int 2]
           [PyFloat.of_int 2; PyFloat.of_int 1]);
    [apply Permutation_rev | apply perm_swap].
Defined.
